(** * selfthoughts.py: the resilient-JSON pipeline and the three run loops

    A shallow embedding of [src/selfthoughts.py].  Python values are modelled
    as follows.
    - A [str] is a list of characters.  Characters are 8-bit code points
      (the Latin-1 range of Python's [str]); whitespace is what
      [str.isspace] accepts in that range.
    - A value produced by [json.loads] is a [json] tree; a Python [dict] is
      an association list in insertion order, looked up by its first match.
    - A function that can raise returns a [result]; the run loops live in a
      small state-and-exit monad over the [world]: the records appended to
      the log file and the requests sent to the inference endpoint.
    - What the program takes from its platform is a [platform]:
      [json.loads], [str()] on a non-string, the inference endpoint, the
      clock, and the fixed prompt texts (several hold characters beyond
      8 bits, and nothing depends on what they say).
    - Console output is not part of the world, but the expressions that
      compute it are evaluated, since they can raise.
    - Two calls are taken at their best.  The endpoint either fails or
      replies with a string as its content: a reply with anything else in
      that place, on which [ollama_chat] raises, is left out.  And
      appending to the log file is taken to succeed: the write raises on a
      record that holds a lone surrogate, which no string of this alphabet
      does (only [json.loads] can make one, from an escape).  So what is
      stated below of iterations that complete and of records that were
      written says nothing of a run in which either happens.
    - [main] is modelled from what [parse_args] makes of the command
      line, a namespace or an exit: it settles the scenario, probes the
      endpoint and calls one controller; what it takes from the machine
      for that is a [host]. *)

From Stdlib Require Import String.
From Stdlib Require Import List Ascii ZArith Bool Lia ZifyBool Arith.
From Stdlib Require DecimalString.
Import ListNotations.

Local Open Scope string_scope.
Local Open Scope list_scope.
Local Open Scope Z_scope.

(* ================================================================== *)
(** * Python strings *)

Module Py.

Definition str := list ascii.

(** [py "abc"] is the Python literal ["abc"]. *)
Definition py (x : String.string) : str := String.list_ascii_of_string x.

(** The double quote, the line feed and the backtick. *)
Definition dq : ascii := "034"%char.
Definition nl : ascii := "010"%char.
Definition bt : ascii := "096"%char.

(** [qq "{'a': 1}"] is the text [{"a": 1}]: an apostrophe stands for the
    double quote, which a literal of this file cannot hold. *)
Definition qq (x : String.string) : str :=
  map (fun c => if Ascii.eqb c "039"%char then dq else c) (py x).

Definition code (c : ascii) : Z := Z.of_N (N_of_ascii c).

(** [str.isspace] on one character (also the class [\s] of [re]). *)
Definition isspace (c : ascii) : bool :=
  let n := code c in
  ((9 <=? n) && (n <=? 13)) || ((28 <=? n) && (n <=? 32))
  || (n =? 133) || (n =? 160).

Fixpoint lstrip_by (p : ascii -> bool) (s : str) : str :=
  match s with
  | c :: s' => if p c then lstrip_by p s' else s
  | [] => []
  end.

Definition rstrip_by (p : ascii -> bool) (s : str) : str :=
  rev (lstrip_by p (rev s)).

Definition strip_by (p : ascii -> bool) (s : str) : str :=
  rstrip_by p (lstrip_by p s).

(** [s.strip()] *)
Definition strip (s : str) : str := strip_by isspace s.

Definition mem (c : ascii) (chars : str) : bool := existsb (Ascii.eqb c) chars.

(** [s.strip(chars)] *)
Definition strip_chars (chars s : str) : str :=
  strip_by (fun c => mem c chars) s.

(** [s.startswith(prefix)] *)
Fixpoint startswith (s prefix : str) {struct prefix} : bool :=
  match prefix, s with
  | [], _ => true
  | p :: prefix', c :: s' => Ascii.eqb c p && startswith s' prefix'
  | _ :: _, [] => false
  end.

Definition lower_char (c : ascii) : ascii :=
  let n := code c in
  if ((65 <=? n) && (n <=? 90))
     || ((192 <=? n) && (n <=? 222) && negb (n =? 215))
  then ascii_of_N (Z.to_N (n + 32)) else c.

(** [s.lower()] *)
Definition lower (s : str) : str := map lower_char s.

Fixpoint find_from (sub s : str) (i : Z) : Z :=
  if startswith s sub then i
  else match s with
       | [] => -1
       | _ :: s' => find_from sub s' (i + 1)
       end.

(** [s.find(sub)]: the lowest index of [sub] in [s], or [-1]. *)
Definition find (s sub : str) : Z := find_from sub s 0.


Definition len {A} (l : list A) : Z := Z.of_nat (length l).

(** A slice bound, as Python clamps it: a negative bound counts from the
    end. *)
Definition bound {A} (l : list A) (i : Z) : nat :=
  Z.to_nat (if i <? 0 then Z.max (i + len l) 0 else Z.min i (len l)).

(** [l[lo:hi]], [l[lo:]] and [l[:hi]] *)
Definition slice {A} (l : list A) (lo hi : Z) : list A :=
  firstn (bound l hi - bound l lo) (skipn (bound l lo) l).
Definition slice_from {A} (l : list A) (lo : Z) : list A :=
  skipn (bound l lo) l.
Definition slice_to {A} (l : list A) (hi : Z) : list A :=
  firstn (bound l hi) l.

(** [sep.join(parts)] *)
Fixpoint join (sep : str) (parts : list str) : str :=
  match parts with
  | [] => []
  | [p] => p
  | p :: rest => p ++ sep ++ join sep rest
  end.

(** [s.replace(old, new)] for a one-character [old]. *)
Definition replace_char (old : ascii) (new : str) (s : str) : str :=
  flat_map (fun c => if Ascii.eqb c old then new else [c]) s.

Fixpoint str_eqb (a b : str) : bool :=
  match a, b with
  | [], [] => true
  | x :: a', y :: b' => Ascii.eqb x y && str_eqb a' b'
  | _, _ => false
  end.

(** [str(n)] for an [int]. *)
Definition str_of_Z (z : Z) : str :=
  py (DecimalString.NilZero.string_of_int (Z.to_int z)).

End Py.
Import Py.

(* ================================================================== *)
(** * JSON values *)

(** A Python [float] read from a number literal is kept as the decimal it
    was written as, [m * 10^e]; Python rounds it to binary64. *)
Inductive pyfloat :=
| FDec (m e : Z)
| FInf (negative : bool)
| FNaN.

#[warnings="-register-all"]
Inductive json :=
| JNull
| JBool (b : bool)
| JInt (z : Z)
| JFloat (f : pyfloat)
| JStr (s : str)
| JList (l : list json)
| JDict (d : list (str * json)).

Definition dict := list (str * json).

Fixpoint lookup (d : dict) (k : str) : option json :=
  match d with
  | [] => None
  | (k', v) :: d' => if str_eqb k' k then Some v else lookup d' k
  end.

(** [d.get(k, default)] *)
Definition get (d : dict) (k : str) (default : json) : json :=
  match lookup d k with
  | Some v => v
  | None => default
  end.

(** [r[k]] for a record [r] of the log. *)
Definition field (r : json) (k : str) : option json :=
  match r with
  | JDict d => lookup d k
  | _ => None
  end.

Definition nonempty {A} (l : list A) : bool :=
  match l with [] => false | _ :: _ => true end.

(** The decimal [m * 10^e] rounds to zero when it is at most [2^-1075]. *)
Definition float_is_zero (f : pyfloat) : bool :=
  match f with
  | FDec m e =>
      if 0 <=? e then m =? 0 else Z.abs m * 2 ^ 1075 <=? 10 ^ (- e)
  | _ => false
  end.

(** [bool(v)] *)
Definition truthy (v : json) : bool :=
  match v with
  | JNull => false
  | JBool b => b
  | JInt z => negb (z =? 0)
  | JFloat f => negb (float_is_zero f)
  | JStr s => nonempty s
  | JList l => nonempty l
  | JDict d => nonempty d
  end.

(* ================================================================== *)
(** * A reference [json.loads]

    The program takes [json.loads] from Python's library; the theorems
    below hold for any function in its place.  This one reads the JSON
    grammar as Python does over 8-bit characters, and instantiates them
    in the examples, on texts it reads as Python does.  It refuses a [\u]
    escape above U+00FF, which Python reads and which no string of this
    alphabet can hold; and where Python has a recursion limit it has fuel,
    set from the number of tokens. *)

Module Json.

Inductive token :=
| TLBrace | TRBrace | TLBrack | TRBrack | TComma | TColon
| TStr (s : str)
| TAtom (a : str).

(** Where the scanner stands: between tokens, inside a number or a word,
    inside a string, after a backslash, or inside the four digits of a
    [\u] escape. *)
Inductive mode :=
| Between
| InAtom (a : str)
| InStr (acc : str)
| InEsc (acc : str)
| InUni (acc : str) (digits : list Z).

(** The whitespace JSON allows between tokens. *)
Definition is_ws (c : ascii) : bool :=
  let n := code c in (n =? 32) || (n =? 9) || (n =? 10) || (n =? 13).

Definition is_atom_char (c : ascii) : bool :=
  let n := code c in
  ((48 <=? n) && (n <=? 57)) || ((65 <=? n) && (n <=? 90))
  || ((97 <=? n) && (n <=? 122)) || (n =? 43) || (n =? 45) || (n =? 46).

Definition punct (c : ascii) : option token :=
  let n := code c in
  if n =? 123 then Some TLBrace else if n =? 125 then Some TRBrace
  else if n =? 91 then Some TLBrack else if n =? 93 then Some TRBrack
  else if n =? 44 then Some TComma else if n =? 58 then Some TColon
  else None.

Definition hex_digit (c : ascii) : option Z :=
  let n := code c in
  if (48 <=? n) && (n <=? 57) then Some (n - 48)
  else if (65 <=? n) && (n <=? 70) then Some (n - 55)
  else if (97 <=? n) && (n <=? 102) then Some (n - 87)
  else None.

Definition escape (c : ascii) : option ascii :=
  let n := code c in
  if n =? 34 then Some dq else if n =? 92 then Some "\"%char
  else if n =? 47 then Some "/"%char
  else if n =? 98 then Some "008"%char else if n =? 102 then Some "012"%char
  else if n =? 110 then Some nl else if n =? 114 then Some "013"%char
  else if n =? 116 then Some "009"%char
  else None.

Definition between (toks : list token) (c : ascii)
  : option (list token * mode) :=
  if is_ws c then Some (toks, Between)
  else if Ascii.eqb c dq then Some (toks, InStr [])
  else if is_atom_char c then Some (toks, InAtom [c])
  else match punct c with
       | Some t => Some (toks ++ [t], Between)
       | None => None
       end.

Definition step (st : list token * mode) (c : ascii)
  : option (list token * mode) :=
  let (toks, m) := st in
  match m with
  | Between => between toks c
  | InAtom a =>
      if is_atom_char c then Some (toks, InAtom (a ++ [c]))
      else between (toks ++ [TAtom a]) c
  | InStr acc =>
      if Ascii.eqb c dq then Some (toks ++ [TStr acc], Between)
      else if Ascii.eqb c "\"%char then Some (toks, InEsc acc)
      else if code c <? 32 then None
      else Some (toks, InStr (acc ++ [c]))
  | InEsc acc =>
      if Ascii.eqb c "u"%char then Some (toks, InUni acc [])
      else match escape c with
           | Some e => Some (toks, InStr (acc ++ [e]))
           | None => None
           end
  | InUni acc ds =>
      match hex_digit c with
      | None => None
      | Some d =>
          match ds with
          | [a; b; c'] =>
              let n := ((a * 16 + b) * 16 + c') * 16 + d in
              if n <? 256 then
                Some (toks, InStr (acc ++ [ascii_of_N (Z.to_N n)]))
              else None
          | _ => Some (toks, InUni acc (ds ++ [d]))
          end
      end
  end.

Fixpoint scan (st : option (list token * mode)) (s : str)
  : option (list token * mode) :=
  match s with
  | [] => st
  | c :: s' =>
      match st with
      | Some st => scan (step st c) s'
      | None => None
      end
  end.

Definition finish (st : option (list token * mode)) : option (list token) :=
  match st with
  | Some (toks, Between) => Some toks
  | Some (toks, InAtom a) => Some (toks ++ [TAtom a])
  | _ => None
  end.

Definition lex (s : str) : option (list token) :=
  finish (scan (Some ([], Between)) s).

(** ** Numbers and words *)

Definition is_digit (c : ascii) : bool :=
  let n := code c in (48 <=? n) && (n <=? 57).

Fixpoint digits (s : str) : str * str :=
  match s with
  | c :: s' =>
      if is_digit c then let (d, r) := digits s' in (c :: d, r) else ([], s)
  | [] => ([], [])
  end.

Definition Z_of_digits (d : str) : Z :=
  fold_left (fun acc c => acc * 10 + (code c - 48)) d 0.

(** A number literal: an optional minus sign, an integer part with no
    leading zero, an optional fraction, an optional exponent.  It is an
    [int] when it has neither fraction nor exponent, a [float] otherwise. *)
Definition number (a : str) : option json :=
  let (neg, a) :=
    match a with
    | c :: a' => if Ascii.eqb c "-" then (true, a') else (false, a)
    | [] => (false, a)
    end in
  let sign := if neg : bool then -1 else 1 in
  let (ip, r) := digits a in
  if negb (nonempty ip) || (startswith ip (py "0") && negb (str_eqb ip (py "0")))
  then None
  else
    let frac :=
      match r with
      | c :: r' =>
          if Ascii.eqb c "." then
            let (fp, r'') := digits r' in
            if nonempty fp then Some (Some fp, r'') else None
          else Some (None, r)
      | [] => Some (None, r)
      end in
    match frac with
    | None => None
    | Some (fp, r) =>
        let expo :=
          match r with
          | c :: r' =>
              if Ascii.eqb c "e" || Ascii.eqb c "E" then
                let (eneg, r') :=
                  match r' with
                  | s :: r'' =>
                      if Ascii.eqb s "-" then (true, r'')
                      else if Ascii.eqb s "+" then (false, r'')
                      else (false, r')
                  | [] => (false, r')
                  end in
                let (ep, r'') := digits r' in
                if nonempty ep then
                  Some (Some ((if eneg : bool then -1 else 1) * Z_of_digits ep),
                        r'')
                else None
              else Some (None, r)
          | [] => Some (None, r)
          end in
        match expo with
        | Some (ex, []) =>
            match fp, ex with
            | None, None => Some (JInt (sign * Z_of_digits ip))
            | _, _ =>
                let fd := match fp with Some d => d | None => [] end in
                let e := match ex with Some e => e | None => 0 end in
                Some (JFloat (FDec (sign * Z_of_digits (ip ++ fd))
                                   (e - len fd)))
            end
        | _ => None
        end
    end.

Definition atom (a : str) : option json :=
  if str_eqb a (py "true") then Some (JBool true)
  else if str_eqb a (py "false") then Some (JBool false)
  else if str_eqb a (py "null") then Some JNull
  else if str_eqb a (py "NaN") then Some (JFloat FNaN)
  else if str_eqb a (py "Infinity") then Some (JFloat (FInf false))
  else if str_eqb a (py "-Infinity") then Some (JFloat (FInf true))
  else number a.

(** ** Values *)

(** [d[k] = v] *)
Fixpoint dict_set (d : dict) (k : str) (v : json) : dict :=
  match d with
  | [] => [(k, v)]
  | (k', v') :: d' =>
      if str_eqb k' k then (k', v) :: d' else (k', v') :: dict_set d' k v
  end.

Fixpoint value (fuel : nat) (ts : list token) : option (json * list token) :=
  match fuel with
  | O => None
  | S fuel =>
      match ts with
      | TStr s :: r => Some (JStr s, r)
      | TAtom a :: r =>
          match atom a with
          | Some v => Some (v, r)
          | None => None
          end
      | TLBrack :: TRBrack :: r => Some (JList [], r)
      | TLBrack :: r => elements fuel r []
      | TLBrace :: TRBrace :: r => Some (JDict [], r)
      | TLBrace :: r => members fuel r []
      | _ => None
      end
  end
with elements (fuel : nat) (ts : list token) (acc : list json)
  : option (json * list token) :=
  match fuel with
  | O => None
  | S fuel =>
      match value fuel ts with
      | Some (v, TComma :: r) => elements fuel r (acc ++ [v])
      | Some (v, TRBrack :: r) => Some (JList (acc ++ [v]), r)
      | _ => None
      end
  end
with members (fuel : nat) (ts : list token) (acc : dict)
  : option (json * list token) :=
  match fuel with
  | O => None
  | S fuel =>
      match ts with
      | TStr k :: TColon :: r =>
          match value fuel r with
          | Some (v, TComma :: r') => members fuel r' (dict_set acc k v)
          | Some (v, TRBrace :: r') => Some (JDict (dict_set acc k v), r')
          | _ => None
          end
      | _ => None
      end
  end.

Definition loads (s : str) : option json :=
  match lex s with
  | Some ts =>
      match value (2 * length ts + 2) ts with
      | Some (v, []) => Some v
      | _ => None
      end
  | None => None
  end.

End Json.

(* ================================================================== *)
(** * A reference [repr]

    [str()] of a value that is not a [str] is Python's [repr]; the
    theorems hold for any function in its place.  This one instantiates
    them.  It is Python's on [None], booleans, integers, strings, lists and
    dicts; a float is printed as its decimal [m], [e], exponent, which is
    not Python's shortest form. *)

Module Repr.

Definition hex (n : Z) : ascii :=
  ascii_of_N (Z.to_N (if n <? 10 then n + 48 else n + 87)).

Definition printable (c : ascii) : bool :=
  let n := code c in
  ((32 <=? n) && (n <? 127)) || ((161 <=? n) && negb (n =? 173)).

Definition escape (quote c : ascii) : str :=
  if Ascii.eqb c quote || Ascii.eqb c "\"%char then ["\"%char; c]
  else if Ascii.eqb c nl then py "\n"
  else if Ascii.eqb c "013"%char then py "\r"
  else if Ascii.eqb c "009"%char then py "\t"
  else if printable c then [c]
  else py "\x" ++ [hex (code c / 16); hex (code c mod 16)].

(** Single quotes, unless the text holds one and no double quote. *)
Definition of_str (s : str) : str :=
  let quote :=
    if mem "'"%char s && negb (mem dq s) then dq else "'"%char in
  [quote] ++ flat_map (escape quote) s ++ [quote].

Definition of_float (f : pyfloat) : str :=
  match f with
  | FDec m e => str_of_Z m ++ py "e" ++ str_of_Z e
  | FInf false => py "inf"
  | FInf true => py "-inf"
  | FNaN => py "nan"
  end.

Fixpoint repr (v : json) : str :=
  match v with
  | JNull => py "None"
  | JBool true => py "True"
  | JBool false => py "False"
  | JInt z => str_of_Z z
  | JFloat f => of_float f
  | JStr s => of_str s
  | JList l => py "[" ++ join (py ", ") (map repr l) ++ py "]"
  | JDict d =>
      py "{"
      ++ join (py ", ")
           (map (fun kv : str * json =>
                   let (k, x) := kv in of_str k ++ py ": " ++ repr x) d)
      ++ py "}"
  end.

End Repr.

(* ================================================================== *)
(** * The fragment of [re] the extractor uses *)

Module Re.

(** One item of a pattern: a single character of a class, a greedy
    repetition of a class, or a capturing group [(p+)]. *)
Inductive item :=
| One (p : ascii -> bool)
| Star (p : ascii -> bool)
| GroupPlus (p : ascii -> bool).

Definition pattern := list item.

Definition chr (c : ascii) : item := One (Ascii.eqb c).
Definition lit (s : str) : pattern := map chr s.

(** Greedy [p*] followed by [k]: the longest run first, then shorter
    ones. *)
Fixpoint star (p : ascii -> bool) (k : str -> option (list str)) (s : str)
  : option (list str) :=
  match s with
  | c :: s' =>
      if p c then
        match star p k s' with
        | Some g => Some g
        | None => k s
        end
      else k s
  | [] => k []
  end.

(** The same with the run captured: [acc] is what the group holds. *)
Fixpoint star_group (p : ascii -> bool) (k : str -> str -> option (list str))
  (acc s : str) : option (list str) :=
  match s with
  | c :: s' =>
      if p c then
        match star_group p k (acc ++ [c]) s' with
        | Some g => Some g
        | None => k acc s
        end
      else k acc s
  | [] => k acc []
  end.

(** [match_here r s]: the groups of the match of [r] at the start of [s]. *)
Fixpoint match_here (r : pattern) : str -> option (list str) :=
  match r with
  | [] => fun _ => Some []
  | One p :: r' =>
      fun s =>
        match s with
        | c :: s' => if p c then match_here r' s' else None
        | [] => None
        end
  | Star p :: r' => star p (match_here r')
  | GroupPlus p :: r' =>
      fun s =>
        match s with
        | c :: s' =>
            if p c then
              star_group p
                (fun g rest =>
                   match match_here r' rest with
                   | Some gs => Some (g :: gs)
                   | None => None
                   end)
                [c] s'
            else None
        | [] => None
        end
  end.

(** [re.search(r, s)]: the leftmost position where [r] matches. *)
Fixpoint search (r : pattern) (s : str) : option (list str) :=
  match match_here r s with
  | Some g => Some g
  | None =>
      match s with
      | [] => None
      | _ :: s' => search r s'
      end
  end.

(** [m.group(1)] *)
Definition group1 (m : list str) : str := nth 0 m [].

End Re.

(* ================================================================== *)
(** * Response extractor *)

(** The exceptions the program can meet, and the result of an expression
    that can raise. *)
Inductive exc :=
| ValueError (msg : str)
| TypeError
| AttributeError.

Inductive result (A : Type) :=
| Ok (a : A)
| Raise (e : exc).
Arguments Ok {A} a.
Arguments Raise {A} e.

(** The loop of [_extract_json_object]:
    [for i, ch in enumerate(s[start:], start=start)]. *)
Fixpoint match_braces (s : str) (start : Z) (rest : str) (i depth : Z)
  : option str :=
  match rest with
  | [] => None
  | ch :: rest' =>
      if Ascii.eqb ch "{" then match_braces s start rest' (i + 1) (depth + 1)
      else if Ascii.eqb ch "}" then
        let depth := depth - 1 in
        if depth =? 0 then Some (slice s start (i + 1))
        else match_braces s start rest' (i + 1) depth
      else match_braces s start rest' (i + 1) depth
  end.

Definition fence : str := [bt; bt; bt].

(** [_extract_json_object(text)]; [None] is Python's [None]. *)
Definition _extract_json_object (text : str) : option str :=
  let s := strip text in
  let s :=
    if startswith s fence then
      let s := strip_chars [bt; " "%char; nl] s in
      if startswith (lower s) (py "json") then strip (slice_from s 4) else s
    else s in
  let start := find s (py "{") in
  if start =? -1 then None
  else match_braces s start (slice_from s start) start 0.

(** The pattern of the third stage, written with an apostrophe for the
    double quote: ['next_thought'\s*:\s*'([^']+)']. *)
Definition next_thought_re : Re.pattern :=
  Re.lit (dq :: py "next_thought" ++ [dq])
  ++ [Re.Star isspace; Re.chr ":"; Re.Star isspace; Re.chr dq;
      Re.GroupPlus (fun c => negb (Ascii.eqb c dq)); Re.chr dq].

Section Extractor.

(** [json.loads]; [None] when it raises. *)
Variable loads : str -> option json.

(** The second stage of [parse_model_json]: the candidate, when there is
    one, parsed. *)
Definition parse_candidate (text : str) : option json :=
  match _extract_json_object text with
  | Some candidate => if nonempty candidate then loads candidate else None
  | None => None
  end.

Definition parse_model_json (text : str) : result json :=
  match loads text with
  | Some v => Ok v
  | None =>
      match parse_candidate text with
      | Some v => Ok v
      | None =>
          match Re.search next_thought_re text with
          | Some m =>
              Ok (JDict [(py "next_thought", JStr (Re.group1 m));
                         (py "notes", JDict [])])
          | None =>
              Raise
                (ValueError
                   (py "Model did not return valid JSON." ++ [nl]
                    ++ py "Raw:" ++ [nl] ++ slice_to text 500 ++ py "..."))
          end
      end
  end.

End Extractor.

(* ================================================================== *)
(** * Note compactor and prompt rendering *)

Definition NOTE_KEYS : list str :=
  [py "premises"; py "hypotheses"; py "uncertainties"; py "plan_next"].

Section Compactor.

(** [str(v)] for a value that is not a [str] (Python's [repr] of it). *)
Variable repr : json -> str.

(** [str(v)] *)
Definition py_str (v : json) : str :=
  match v with
  | JStr s => s
  | _ => repr v
  end.

Definition compact_notes (notes : dict) (max_items : Z) : dict :=
  map
    (fun k =>
       let arr := get notes k (JList []) in
       let arr :=
         match arr with
         | JList l => l
         | _ => [JStr (py_str arr)]
         end in
       (k, JList (slice_to arr max_items)))
    NOTE_KEYS.

End Compactor.

(** [", ".join(items)] for a list: a [TypeError] unless every item is a
    [str]. *)
Fixpoint strings_of (items : list json) : result (list str) :=
  match items with
  | [] => Ok []
  | JStr s :: rest =>
      match strings_of rest with
      | Ok l => Ok (s :: l)
      | Raise e => Raise e
      end
  | _ :: _ => Raise TypeError
  end.

(** The local [join] of [render_prior]:
    [", ".join(lst) if lst else ""]. *)
Definition join_items (lst : json) : result str :=
  if truthy lst then
    match lst with
    | JList l =>
        match strings_of l with
        | Ok parts => Ok (join (py ", ") parts)
        | Raise e => Raise e
        end
    | JStr s => Ok (join (py ", ") (map (fun c => [c]) s))
    | JDict d => Ok (join (py ", ") (map fst d))
    | _ => Raise TypeError
    end
  else Ok [].

Definition render_prior (notes : dict) : result str :=
  match join_items (get notes (py "premises") (JList [])) with
  | Raise e => Raise e
  | Ok premises =>
  match join_items (get notes (py "hypotheses") (JList [])) with
  | Raise e => Raise e
  | Ok hypotheses =>
  match join_items (get notes (py "uncertainties") (JList [])) with
  | Raise e => Raise e
  | Ok uncertainties =>
  match join_items (get notes (py "plan_next") (JList [])) with
  | Raise e => Raise e
  | Ok plan_next =>
      Ok (py "PRIOR NOTES (compressed):" ++ [nl]
          ++ py "Premises*: [" ++ premises ++ py "]" ++ [nl]
          ++ py "Hypotheses*: [" ++ hypotheses ++ py "]" ++ [nl]
          ++ py "Uncertainties*: [" ++ uncertainties ++ py "]" ++ [nl]
          ++ py "Plan_next*: [" ++ plan_next ++ py "]" ++ [nl])
  end end end end.

Definition render_thought_history (thoughts : list str) (k : Z) : str :=
  let recent := if 0 <? k then slice_from thoughts (- k) else [] in
  let lines := join [nl] (map (fun t => py "- " ++ t) (rev recent)) in
  py "THOUGHT HISTORY (most recent first):" ++ [nl]
  ++ (if nonempty lines then lines else py "- (none)").

(** The console summary of the batch and refinement loops,
    [(ans or "")[:160].replace("\n", " ")] with
    [ans = parsed.get("answer", "") if isinstance(parsed, dict) else ""].
    Only a [str] can be sliced and then asked for [replace]: a non-empty
    list has no [replace], and any other true value cannot be sliced (a
    non-empty dict raises [KeyError] rather than [TypeError] from Python
    3.12 on; nothing catches either). *)
Definition answer_summary (parsed : json) : result str :=
  let ans :=
    match parsed with
    | JDict d => get d (py "answer") (JStr [])
    | _ => JStr []
    end in
  match (if truthy ans then ans else JStr []) with
  | JStr s => Ok (replace_char nl (py " ") (slice_to s 160))
  | JList _ => Raise AttributeError
  | _ => Raise TypeError
  end.

(* ================================================================== *)
(** * The world and the run monad *)

(** A chat message: its role and its content. *)
Definition message := (str * str)%type.

(** What a run acts on: the records appended to the log file (one per
    line, oldest first) and the requests sent to the endpoint. *)
Record world := {
  log : list json;
  requests : list (list message)
}.

(** How a computation ends: with a value, by [sys.exit(code)], or by an
    exception nobody catches (the interpreter prints it and exits with
    status 1). *)
Inductive outcome (A : Type) :=
| Done (a : A)
| Exit (code : Z)
| Uncaught (e : exc).
Arguments Done {A} a.
Arguments Exit {A} code.
Arguments Uncaught {A} e.

Definition io (A : Type) := world -> outcome A * world.

Definition ret {A} (a : A) : io A := fun w => (Done a, w).

Definition bind {A B} (c : io A) (k : A -> io B) : io B :=
  fun w =>
    match c w with
    | (Done a, w') => k a w'
    | (Exit code, w') => (Exit code, w')
    | (Uncaught e, w') => (Uncaught e, w')
    end.

Notation "x <- c ;; k" := (bind c (fun x => k))
  (at level 61, c at next level, right associativity).
Notation "c ;;; k" := (bind c (fun _ => k))
  (at level 61, right associativity).

(** An expression that can raise, evaluated with no handler around it. *)
Definition eval {A} (r : result A) : io A :=
  fun w =>
    match r with
    | Ok a => (Done a, w)
    | Raise e => (Uncaught e, w)
    end.

(** [for i in range(start, start + n)] over a loop-carried state. *)
Fixpoint for_range {St} (body : nat -> St -> io St) (start n : nat)
  (st : St) : io St :=
  match n with
  | O => ret st
  | S n' => st' <- body start st ;; for_range body (S start) n' st'
  end.

(** The process status of an outcome. *)
Definition exit_status {A} (o : outcome A) : Z :=
  match o with
  | Done _ => 0
  | Exit code => code
  | Uncaught _ => 1
  end.

(** [log_jsonl(path, record)]: one more line in the file; a record stands
    for its line, [json.dumps(record)] and a line feed.  The write is
    taken to succeed. *)
Definition log_jsonl (record : json) : io unit :=
  fun w => (Done tt, {| log := log w ++ [record]; requests := requests w |}).

(** [f"{k}"] for a loop index. *)
Definition str_of_nat (k : nat) : str := str_of_Z (Z.of_nat k).

Definition json_of_seed (seed : option Z) : json :=
  match seed with
  | Some z => JInt z
  | None => JNull
  end.

(* ================================================================== *)
(** * Run controllers *)

Definition empty_notes : dict :=
  [(py "premises", JList []); (py "hypotheses", JList []);
   (py "uncertainties", JList []); (py "plan_next", JList [])].

(** [perturb_at is not None and k == perturb_at] *)
Definition fires (perturb_at : option Z) (k : nat) : bool :=
  match perturb_at with
  | Some p => Z.of_nat k =? p
  | None => false
  end.

Record loop_state := {
  l_notes : dict;
  l_scenario : str
}.

Record thoughts_state := {
  t_notes : dict;
  t_thoughts : list str;
  t_scenario : str
}.

(** What the program takes from its platform. *)
Record platform := {
  (** [json.loads]; [None] when it raises. *)
  json_loads : str -> option json;
  (** [str(v)] for a value that is not a [str]. *)
  py_repr : json -> str;
  (** The inference endpoint: the [content] of the message it replies
      to the [n]-th request of the run, or [None] when the HTTP call
      raises a [RequestException]. *)
  endpoint : nat -> list message -> option str;
  (** The clock: the timestamp and the rounded latency of iteration [i]. *)
  utcnow : nat -> str;
  latency : nat -> pyfloat;
  (** The fixed prompt texts; the last one is the illustrative example
      that ends the stepwise prompt. *)
  SYSTEM_PROMPT : str;
  FORMAT_INSTRUCTIONS : str;
  BASE_INSTRUCTIONS : str;
  LOOP_INSTRUCTIONS : str;
  THOUGHTS_FORMAT : str;
  THOUGHTS_INSTRUCTIONS : str;
  THOUGHTS_EXAMPLE : str
}.

(** The arguments every controller takes. *)
Record arguments := {
  scenario : str;
  temperature : pyfloat;
  seed : option Z;
  model : str
}.

Section Run.

Variable P : platform.
Variable a : arguments.

(** [ollama_chat]: one request, no retry; a failure ends the process with
    status 1.  A reply is taken to hold a string as its content. *)
Definition ollama_chat (messages : list message) : io str :=
  fun w =>
    let w' := {| log := log w; requests := requests w ++ [messages] |} in
    match endpoint P (length (requests w)) messages with
    | Some content => (Done (strip content), w')
    | None => (Exit 1, w')
    end.

(** [{"raw_text": text, "parse_error": str(e)}] *)
Definition error_payload (text msg : str) : json :=
  JDict [(py "raw_text", JStr text); (py "parse_error", JStr msg)].

(** [try: parsed = parse_model_json(text)] with its handler
    [except ValueError as e]. *)
Definition parse_or_error (text : str) : io json :=
  match parse_model_json (json_loads P) text with
  | Ok v => ret v
  | Raise (ValueError msg) => ret (error_payload text msg)
  | Raise e => eval (Raise e)
  end.

Definition params : json :=
  JDict [(py "temperature", JFloat (temperature a));
         (py "seed", json_of_seed (seed a))].

(** ** Baseline *)

Definition baseline_messages : list message :=
  [(py "system", SYSTEM_PROMPT P);
   (py "user",
    py "SCENARIO:" ++ [nl] ++ scenario a ++ [nl; nl] ++ BASE_INSTRUCTIONS P
    ++ [nl] ++ FORMAT_INSTRUCTIONS P)].

Definition baseline_record (i : nat) (parsed : json) : json :=
  JDict [(py "mode", JStr (py "baseline"));
         (py "iteration", JInt (Z.of_nat i));
         (py "timestamp", JStr (utcnow P i));
         (py "model", JStr (model a));
         (py "params", params);
         (py "scenario", JStr (scenario a));
         (py "prompt_kind", JStr (py "baseline"));
         (py "response", parsed);
         (py "latency_sec", JFloat (latency P i))].

Definition baseline_body (i : nat) (_ : unit) : io unit :=
  text <- ollama_chat baseline_messages ;;
  parsed <- parse_or_error text ;;
  log_jsonl (baseline_record i parsed) ;;;
  _ <- eval (answer_summary parsed) ;;
  ret tt.

Definition baseline_run (samples : Z) : io unit :=
  for_range baseline_body 0 (Z.to_nat samples) tt.

(** ** Loop *)

Definition loop_init : loop_state :=
  {| l_notes := empty_notes; l_scenario := scenario a |}.

(** The scenario in effect in iteration [k], after the perturbation
    check. *)
Definition loop_scenario (perturb_at : option Z) (perturb_text : str)
  (k : nat) (st : loop_state) : str :=
  if fires perturb_at k then
    scenario a ++ [nl; nl] ++ py "CHANGE LOG (Iteration " ++ str_of_nat k
    ++ py "): " ++ perturb_text
  else l_scenario st.

Definition loop_change_log (perturb_at : option Z) (perturb_text : str)
  (k : nat) : str :=
  if fires perturb_at k then
    py "CHANGE LOG applied at iteration " ++ str_of_nat k ++ py ": "
    ++ perturb_text
  else [].

Definition loop_messages (st : loop_state) (current_scenario : str)
  : result (list message) :=
  match render_prior (l_notes st) with
  | Raise e => Raise e
  | Ok prior_section =>
      Ok [(py "system", SYSTEM_PROMPT P);
          (py "user",
           py "SCENARIO:" ++ [nl] ++ current_scenario ++ [nl; nl]
           ++ prior_section ++ [nl] ++ LOOP_INSTRUCTIONS P ++ [nl]
           ++ FORMAT_INSTRUCTIONS P)]
  end.

(** [new_notes = parsed.get("notes", {}) if isinstance(parsed, dict) else {}]
    and then [if isinstance(new_notes, dict): prior_notes = compact_notes(...)]. *)
Definition loop_notes (parsed : json) (prior_notes : dict) : dict :=
  let new_notes :=
    match parsed with
    | JDict d => get d (py "notes") (JDict [])
    | _ => JDict []
    end in
  match new_notes with
  | JDict d => compact_notes (py_repr P) d 3
  | _ => prior_notes
  end.

Definition loop_record (k : nat) (current_scenario change_log : str)
  (prior_notes : dict) (parsed : json) : json :=
  JDict [(py "mode", JStr (py "loop"));
         (py "iteration", JInt (Z.of_nat k));
         (py "timestamp", JStr (utcnow P k));
         (py "model", JStr (model a));
         (py "params", params);
         (py "scenario", JStr current_scenario);
         (py "prompt_kind", JStr (py "loop"));
         (py "prior_notes", JDict prior_notes);
         (py "response", parsed);
         (py "change_log", JStr change_log);
         (py "latency_sec", JFloat (latency P k))].

Definition loop_body (perturb_at : option Z) (perturb_text : str)
  (k : nat) (st : loop_state) : io loop_state :=
  let current_scenario := loop_scenario perturb_at perturb_text k st in
  let change_log := loop_change_log perturb_at perturb_text k in
  messages <- eval (loop_messages st current_scenario) ;;
  text <- ollama_chat messages ;;
  parsed <- parse_or_error text ;;
  let prior_notes := loop_notes parsed (l_notes st) in
  log_jsonl (loop_record k current_scenario change_log prior_notes parsed) ;;;
  _ <- eval (answer_summary parsed) ;;
  ret {| l_notes := prior_notes; l_scenario := current_scenario |}.

Definition loop_run (iterations : Z) (perturb_at : option Z)
  (perturb_text : str) : io unit :=
  _ <- for_range (loop_body perturb_at perturb_text) 0
         (Z.to_nat iterations) loop_init ;;
  ret tt.

(** ** Thoughts *)

Definition thoughts_init : thoughts_state :=
  {| t_notes := empty_notes; t_thoughts := []; t_scenario := scenario a |}.

Definition thoughts_scenario (perturb_at : option Z) (perturb_text : str)
  (step : nat) (st : thoughts_state) : str :=
  if fires perturb_at step then
    scenario a ++ [nl; nl] ++ py "CHANGE LOG (step " ++ str_of_nat step
    ++ py "): " ++ perturb_text
  else t_scenario st.

Definition thoughts_change_log (perturb_at : option Z) (perturb_text : str)
  (step : nat) : str :=
  if fires perturb_at step then
    py "CHANGE LOG applied at step " ++ str_of_nat step ++ py ": "
    ++ perturb_text
  else [].

Definition thoughts_messages (st : thoughts_state) (current_scenario : str)
  (history_window : Z) : list message :=
  let history := render_thought_history (t_thoughts st) history_window in
  [(py "system", SYSTEM_PROMPT P);
   (py "user",
    py "SCENARIO:" ++ [nl] ++ current_scenario ++ [nl; nl]
    ++ history ++ [nl; nl]
    ++ py "RESPONSE REQUIREMENTS:" ++ [nl]
    ++ py "- Return ONE JSON object ONLY; no markdown, no text outside the JSON."
    ++ [nl]
    ++ py "- Follow the schema exactly; use empty lists [] when unknown."
    ++ [nl; nl]
    ++ THOUGHTS_INSTRUCTIONS P ++ [nl] ++ THOUGHTS_FORMAT P ++ [nl]
    ++ THOUGHTS_EXAMPLE P)].

(** [next_thought]: [""], or
    [str(parsed.get("next_thought", "")).strip()] when the payload is a
    [dict]. *)
Definition next_thought_of (parsed : json) : str :=
  match parsed with
  | JDict d => strip (py_str (py_repr P) (get d (py "next_thought") (JStr [])))
  | _ => []
  end.

(** The notes after the update of a step, which only a [dict] payload
    reaches. *)
Definition thoughts_notes (parsed : json) (prior_notes : dict) : dict :=
  match parsed with
  | JDict d =>
      match get d (py "notes") (JDict []) with
      | JDict new_notes => compact_notes (py_repr P) new_notes 3
      | _ => prior_notes
      end
  | _ => prior_notes
  end.

(** [if next_thought: thoughts.append(next_thought)] *)
Definition thoughts_append (thoughts : list str) (next_thought : str)
  : list str :=
  if nonempty next_thought then thoughts ++ [next_thought] else thoughts.

Definition thoughts_record (step : nat) (current_scenario change_log : str)
  (prior_notes : dict) (next_thought : str) (thoughts : list str)
  (history_window : Z) : json :=
  JDict [(py "mode", JStr (py "thoughts"));
         (py "step", JInt (Z.of_nat step));
         (py "timestamp", JStr (utcnow P step));
         (py "model", JStr (model a));
         (py "params", params);
         (py "scenario", JStr current_scenario);
         (py "prompt_kind", JStr (py "thoughts"));
         (py "prior_notes", JDict prior_notes);
         (py "next_thought", JStr next_thought);
         (py "thoughts_so_far", JInt (len thoughts));
         (py "history_window", JInt history_window);
         (py "change_log", JStr change_log);
         (py "latency_sec", JFloat (latency P step))].

Definition thoughts_body (history_window : Z) (perturb_at : option Z)
  (perturb_text : str) (step : nat) (st : thoughts_state)
  : io thoughts_state :=
  let current_scenario := thoughts_scenario perturb_at perturb_text step st in
  let change_log := thoughts_change_log perturb_at perturb_text step in
  text <- ollama_chat (thoughts_messages st current_scenario history_window) ;;
  parsed <- parse_or_error text ;;
  let next_thought := next_thought_of parsed in
  let prior_notes := thoughts_notes parsed (t_notes st) in
  let thoughts := thoughts_append (t_thoughts st) next_thought in
  log_jsonl
    (thoughts_record step current_scenario change_log prior_notes
       next_thought thoughts history_window) ;;;
  ret {| t_notes := prior_notes; t_thoughts := thoughts;
         t_scenario := current_scenario |}.

Definition thoughts_run (total_thoughts history_window : Z)
  (perturb_at : option Z) (perturb_text : str) : io unit :=
  _ <- for_range (thoughts_body history_window perturb_at perturb_text) 0
         (Z.to_nat total_thoughts) thoughts_init ;;
  ret tt.

End Run.

(** The payload a controller works with: what [parse_model_json] returns,
    or the error payload built from its [ValueError]. *)
Definition payload (loads : str -> option json) (text : str) : json :=
  match parse_model_json loads text with
  | Ok v => v
  | Raise (ValueError msg) => error_payload text msg
  | Raise _ => JNull
  end.

(** The world after one more request, and after a request and the record
    of its iteration. *)
Definition sent (w : world) (m : list message) : world :=
  {| log := log w; requests := requests w ++ [m] |}.
Definition logged (w : world) (m : list message) (r : json) : world :=
  {| log := log w ++ [r]; requests := requests w ++ [m] |}.

(* ================================================================== *)
(** * A concrete platform

    The reference [json.loads] and [repr], an endpoint that answers from a
    script, a fixed clock and short stand-ins for the prompt texts: what
    the closed examples below run on. *)

Module Example.

(** The [n]-th request gets the [n]-th entry of the script; [None], and
    the end of the script, are transport errors. *)
Definition scripted (script : list (option str))
  : nat -> list message -> option str :=
  fun n _ => nth n script None.

(** The platform whose endpoint answers from [script]. *)
Definition machine (script : list (option str)) : platform :=
  {| json_loads := Json.loads;
     py_repr := Repr.repr;
     endpoint := scripted script;
     utcnow := fun i => py "2025-01-01T00:00:00.00000" ++ str_of_nat i;
     latency := fun _ => FDec 1234 (-3);
     SYSTEM_PROMPT := py "SYSTEM_PROMPT";
     FORMAT_INSTRUCTIONS := py "FORMAT_INSTRUCTIONS";
     BASE_INSTRUCTIONS := py "BASE_INSTRUCTIONS";
     LOOP_INSTRUCTIONS := py "LOOP_INSTRUCTIONS";
     THOUGHTS_FORMAT := py "THOUGHTS_FORMAT";
     THOUGHTS_INSTRUCTIONS := py "THOUGHTS_INSTRUCTIONS";
     THOUGHTS_EXAMPLE := py "THOUGHTS_EXAMPLE" |}.

(** The command line's defaults around a scenario. *)
Definition args (text : str) : arguments :=
  {| scenario := text; temperature := FDec 2 (-1); seed := Some 42;
     model := py "llama3.2:3b" |}.

(** A run starts with an empty log and no request sent. *)
Definition start : world := {| log := []; requests := [] |}.

End Example.

(* ================================================================== *)
(** * Vocabulary of the statements *)

Abbreviation lbrace := "{"%char.
Abbreviation rbrace := "}"%char.

(** Texts whose braces are properly nested: any characters, with every
    opening brace closed later and every closing brace opened earlier.  The
    inside of a JSON object whose strings hold no brace is one. *)
Inductive nested : str -> Prop :=
| nested_nil : nested []
| nested_char c s :
    c <> lbrace -> c <> rbrace -> nested s -> nested (c :: s)
| nested_group a b :
    nested a -> nested b -> nested (lbrace :: a ++ rbrace :: b).

(** [framed obj s]: [s] holds [obj] after a prefix with no opening brace. *)
Definition framed (obj s : str) : Prop :=
  exists pre post,
    s = pre ++ obj ++ post /\ Forall (fun c => c <> lbrace) pre.

(** What a category holds before truncation: nothing when it is missing,
    the list when it is one, the value's [str()] alone otherwise. *)
Definition category_items (repr : json -> str) (notes : dict) (k : str)
  : list json :=
  match lookup notes k with
  | None => []
  | Some (JList l) => l
  | Some v => [JStr (py_str repr v)]
  end.

(** [{"next_thought": value, "notes": {}}] *)
Definition rescue_payload (value : str) : json :=
  JDict [(py "next_thought", JStr value); (py "notes", JDict [])].

(** What an iteration may do to the world: nothing (it raised before its
    request), a request (the endpoint failed), or a request and a record;
    only the last lets the loop go on.  [req_ok] and [rec_ok] are what is
    to hold of the request and of the record of iteration [k], [st_ok] of
    the state an iteration starts from. *)
Definition iteration_shape {St} (st_ok : nat -> St -> Prop)
  (req_ok : nat -> list message -> Prop) (rec_ok : nat -> json -> Prop)
  (k : nat) (w : world) (o : outcome St) (w' : world) : Prop :=
  match o with
  | Done st' =>
      exists m r, w' = logged w m r /\ req_ok k m /\ rec_ok k r
                  /\ st_ok (S k) st'
  | _ =>
      w' = w
      \/ (exists m, w' = sent w m /\ req_ok k m)
      \/ (exists m r, w' = logged w m r /\ req_ok k m /\ rec_ok k r)
  end.

(** The requests and records a run adds to the world, iteration by
    iteration. *)
Definition trace_ok (req_ok : nat -> list message -> Prop)
  (rec_ok : nat -> json -> Prop) (w0 w : world) : Prop :=
  exists recs reqs,
    log w = log w0 ++ recs /\ requests w = requests w0 ++ reqs
    /\ (forall i r, nth_error recs i = Some r -> rec_ok i r)
    /\ (forall i m, nth_error reqs i = Some m -> req_ok i m).

Definition trace_full (req_ok : nat -> list message -> Prop)
  (rec_ok : nat -> json -> Prop) (w0 : world) (k : nat) (w : world) : Prop :=
  exists recs reqs,
    log w = log w0 ++ recs /\ requests w = requests w0 ++ reqs
    /\ length recs = k /\ length reqs = k
    /\ (forall i r, nth_error recs i = Some r -> rec_ok i r)
    /\ (forall i m, nth_error reqs i = Some m -> req_ok i m).

(** The scenario of iteration [k] of a refinement run, and of step [k] of a
    stepwise run, as a function of the perturbation index: the base text
    before the index is reached (and always, when the index is negative or
    not set), the base text and the change-log fragment from then on. *)
Definition loop_scenario_at (a : arguments) (perturb_at : option Z)
  (perturb_text : str) (k : nat) : str :=
  match perturb_at with
  | Some p =>
      if (0 <=? p) && (p <=? Z.of_nat k) then
        scenario a ++ [nl; nl] ++ py "CHANGE LOG (Iteration " ++ str_of_Z p
        ++ py "): " ++ perturb_text
      else scenario a
  | None => scenario a
  end.

Definition thoughts_scenario_at (a : arguments) (perturb_at : option Z)
  (perturb_text : str) (k : nat) : str :=
  match perturb_at with
  | Some p =>
      if (0 <=? p) && (p <=? Z.of_nat k) then
        scenario a ++ [nl; nl] ++ py "CHANGE LOG (step " ++ str_of_Z p
        ++ py "): " ++ perturb_text
      else scenario a
  | None => scenario a
  end.

(** A request whose user message opens with the scenario [s]. *)
Definition asks_about (P : platform) (s : str) (m : list message) : Prop :=
  exists rest,
    m = [(py "system", SYSTEM_PROMPT P);
         (py "user", py "SCENARIO:" ++ [nl] ++ s ++ [nl; nl] ++ rest)].

(** A record of iteration [k] (under the key [index]) with scenario [s]
    and change log [c]. *)
Definition records (index : str) (k : nat) (s c : str) (r : json) : Prop :=
  field r index = Some (JInt (Z.of_nat k))
  /\ field r (py "scenario") = Some (JStr s)
  /\ field r (py "change_log") = Some (JStr c).

(** The run ended by [sys.exit(1)], a non-zero status, after adding [k]
    records to the log and sending [k + 1] requests, the last of them
    [m]. *)
Definition stopped_at (k : nat) (w0 : world) (m : list message)
  (final : outcome unit * world) : Prop :=
  exists recs reqs,
    final = (Exit 1, {| log := log w0 ++ recs;
                        requests := requests w0 ++ reqs ++ [m] |})
    /\ length recs = k /\ length reqs = k
    /\ exit_status (fst final) <> 0.

(** A reply that is no JSON and holds no brace, yet matches the pattern of
    the third stage. *)
Definition rescued_text : str := qq "I think 'next_thought': 'check power'".

(** The compaction of [{"premises": ["a"]}]. *)
Definition kept_notes : dict :=
  [(py "premises", JList [JStr (py "a")]); (py "hypotheses", JList []);
   (py "uncertainties", JList []); (py "plan_next", JList [])].

(** [levels n s]: [s] closes [n] open braces, one after the other, with
    properly nested text before each closing brace. *)
Inductive levels : nat -> str -> Prop :=
| levels_O : levels O []
| levels_S n a s :
    nested a -> levels n s -> levels (S n) (a ++ rbrace :: s).

(** [trimmed text s]: [s] is [text] without a prefix that holds no opening
    brace and without some suffix. *)
Definition trimmed (text s : str) : Prop :=
  exists p q, text = p ++ s ++ q /\ Forall (fun c => c <> lbrace) p.

(** [next_thought_at pre text g]: after [pre], the text continues with the
    quoted key [next_thought], optional whitespace, a colon, optional
    whitespace, and the quoted, non-empty, quote-free value [g]. *)
Definition next_thought_at (pre text g : str) : Prop :=
  exists w1 w2 post,
    text = pre ++ (dq :: py "next_thought" ++ [dq]) ++ w1 ++ ":"%char :: w2
           ++ dq :: g ++ dq :: post
    /\ forallb isspace w1 = true /\ forallb isspace w2 = true
    /\ g <> [] /\ Forall (fun c => c <> dq) g.

Definition not_dq (c : ascii) : bool := negb (Ascii.eqb c dq).

(** [first_next_thought text g]: [g] is the value of the leftmost such
    occurrence in [text]. *)
Definition first_next_thought (text g : str) : Prop :=
  exists pre,
    next_thought_at pre text g
    /\ forall pre' g',
         next_thought_at pre' text g' -> (length pre <= length pre')%nat.

(** [first_group text c]: [c] is the piece of [text] from its first opening
    brace to the brace that closes it, the braces between them properly
    nested. *)
Definition first_group (text c : str) : Prop :=
  exists pre body post,
    text = pre ++ lbrace :: body ++ rbrace :: post
    /\ Forall (fun x => x <> lbrace) pre
    /\ nested body
    /\ c = lbrace :: body ++ [rbrace].

Definition is_str (v : json) : bool :=
  match v with
  | JStr _ => true
  | _ => false
  end.

(** What compaction keeps of a category. *)
Definition kept_items (repr : json -> str) (notes : dict) (n : Z) (k : str)
  : list json :=
  firstn (Z.to_nat n) (category_items repr notes k).

(** The prior-notes block for four lists of strings. *)
Definition prior_block (premises hypotheses uncertainties plan_next
                          : list str) : str :=
  py "PRIOR NOTES (compressed):" ++ [nl]
  ++ py "Premises*: [" ++ join (py ", ") premises ++ py "]" ++ [nl]
  ++ py "Hypotheses*: [" ++ join (py ", ") hypotheses ++ py "]" ++ [nl]
  ++ py "Uncertainties*: [" ++ join (py ", ") uncertainties ++ py "]" ++ [nl]
  ++ py "Plan_next*: [" ++ join (py ", ") plan_next ++ py "]" ++ [nl].

(** The strings among some items. *)
Definition texts (items : list json) : list str :=
  flat_map (fun v => match v with JStr s => [s] | _ => [] end) items.

(** [grown w0 w nrec nreq]: [w] is [w0] with [nrec] more records at the end
    of the log and [nreq] more requests sent. *)
Definition grown (w0 w : world) (nrec nreq : nat) : Prop :=
  exists recs reqs,
    log w = log w0 ++ recs /\ requests w = requests w0 ++ reqs
    /\ length recs = nrec /\ length reqs = nreq.

(** The books of a run of [n] iterations from [w0]: a run that completes
    left a record for each of its [n] requests; one that exits does so with
    status 1 on a request with no record, after fewer than [n] records; one
    that ends by an exception sent at most [n] requests and left a record
    for each of them, except perhaps the last. *)
Definition accounted {A} (n : nat) (w0 : world) (o : outcome A) (w : world)
  : Prop :=
  match o with
  | Done _ => grown w0 w n n
  | Exit code =>
      code = 1 /\ exists k, (k < n)%nat /\ grown w0 w k (S k)
  | Uncaught _ =>
      exists k j, (k <= j <= S k)%nat /\ (j <= n)%nat /\ grown w0 w k j
  end.

(** The same for one iteration. *)
Definition step_accounted {A} (w : world) (o : outcome A) (w' : world)
  : Prop :=
  match o with
  | Done _ => exists m r, w' = logged w m r
  | Exit code => code = 1 /\ exists m, w' = sent w m
  | Uncaught _ =>
      w' = w \/ (exists m, w' = sent w m) \/ exists m r, w' = logged w m r
  end.

(** What a run added to the world, read against the records before each
    point: [req_of i before m] is to hold of the [i]-th request [m] and
    [rec_of i before r] of the [i]-th record [r], where [before] are the
    records of the iterations before [i]. *)
Definition replayed (req_of : nat -> list json -> list message -> Prop)
  (rec_of : nat -> list json -> json -> Prop) (w0 w : world) : Prop :=
  exists recs reqs,
    log w = log w0 ++ recs /\ requests w = requests w0 ++ reqs
    /\ (forall i m, nth_error reqs i = Some m -> req_of i (firstn i recs) m)
    /\ (forall i r, nth_error recs i = Some r -> rec_of i (firstn i recs) r).

(** The [next_thought] a record holds. *)
Definition said (r : json) : str :=
  match field r (py "next_thought") with
  | Some (JStr s) => s
  | _ => []
  end.

(** The thought history a log tells: the non-empty [next_thought] of its
    records, in order. *)
Definition history_of (recs : list json) : list str :=
  filter nonempty (map said recs).

(** The Notes a log tells: the [prior_notes] of its last record, and the
    empty Notes when it has none. *)
Definition notes_after (recs : list json) : dict :=
  match rev recs with
  | [] => empty_notes
  | r :: _ =>
      match field r (py "prior_notes") with
      | Some (JDict d) => d
      | _ => []
      end
  end.

(** Notes as the data model has them: the four categories in their order,
    each a list of at most three items. *)
Definition well_formed_notes (d : dict) : Prop :=
  map fst d = NOTE_KEYS
  /\ forall k v,
       lookup d k = Some v ->
       exists items, v = JList items /\ (length items <= 3)%nat.

(** A record of a run with arguments [a] in the mode tagged [tag]: it
    carries the tag, the model, the sampling parameters, and a scenario
    that opens with the scenario of the run. *)
Definition tagged (a : arguments) (tag : str) (r : json) : Prop :=
  field r (py "mode") = Some (JStr tag)
  /\ field r (py "model") = Some (JStr (model a))
  /\ field r (py "params") = Some (params a)
  /\ exists rest, field r (py "scenario") = Some (JStr (scenario a ++ rest)).

(* ================================================================== *)
(** * The command line

    [main] from what [parse_args] makes of the command line: when that
    is a namespace, it settles the scenario, probes the endpoint and calls
    the controller of the chosen mode; otherwise [parse_args] has ended the
    process.  [--out] names the log file, which is the [log] of the
    world. *)

Module Args.

(** The choices of [--mode]. *)
Inductive choice := Baseline | Loop | Thoughts.

(** The namespace [parse_args] returns; a [str] option that was not given
    is [None], the others have their defaults. *)
Record t := {
  mode : choice;
  scenario : option str;
  scenario_file : option str;
  samples : Z;
  iterations : Z;
  perturb_at : option Z;
  perturb_text : str;
  thoughts : Z;
  history_window : Z;
  temperature : pyfloat;
  seed : Z;
  model : str
}.

(** What [ap.parse_args()] makes of the command line: the namespace; or,
    asked for the help, the help text and [sys.exit(0)]; or, for a command
    line it refuses (an unknown option, a value of the wrong type, no
    [--mode]), the usage message and [sys.exit(2)]. *)
Inductive parsed :=
| Namespace (args : t)
| Help
| Refused.

End Args.

(** What [main] takes from the machine besides the platform of the
    controllers: the file system, where [open(path).read()] gives a text or
    raises, and whether the [GET] of the connectivity check succeeds. *)
Record host := {
  read_file : str -> option str;
  tags_reachable : bool
}.

(** How [main] ends: as its run ends, or by the exception [open] or
    [read] raised, which nobody catches. *)
Inductive ending :=
| Ran (o : outcome unit)
| Unreadable.

Definition status (e : ending) : Z :=
  match e with
  | Ran o => exit_status o
  | Unreadable => 1
  end.

(** The truth value of an optional [str]: [None] and [""] are false. *)
Definition given (x : option str) : bool :=
  match x with
  | Some (_ :: _) => true
  | _ => false
  end.

(** [read_text_file(path)]; [None] when it raises. *)
Definition read_text_file (h : host) (path : str) : option str :=
  match read_file h path with
  | Some text => Some (strip text)
  | None => None
  end.

(** [args.scenario or read_text_file(args.scenario_file)]; [None] when
    it raises ([open(None)] would, but [main] has exited by then). *)
Definition chosen_scenario (h : host) (args : Args.t) : option str :=
  if given (Args.scenario args) then Args.scenario args
  else
    match Args.scenario_file args with
    | Some path => read_text_file h path
    | None => None
    end.

(** The arguments [main] passes to every controller. *)
Definition run_arguments (args : Args.t) (text : str) : arguments :=
  {| scenario := text;
     temperature := Args.temperature args;
     seed := Some (Args.seed args);
     model := Args.model args |}.

Definition main (h : host) (P : platform) (cmd : Args.parsed)
  : world -> ending * world :=
  fun w =>
    match cmd with
    | Args.Help => (Ran (Exit 0), w)
    | Args.Refused => (Ran (Exit 2), w)
    | Args.Namespace args =>
    if negb (given (Args.scenario args))
       && negb (given (Args.scenario_file args))
    then (Ran (Exit 2), w)
    else
      match chosen_scenario h args with
      | None => (Unreadable, w)
      | Some text =>
          if tags_reachable h then
            let a := run_arguments args text in
            let (o, w') :=
              match Args.mode args with
              | Args.Baseline => baseline_run P a (Args.samples args) w
              | Args.Loop =>
                  loop_run P a (Args.iterations args) (Args.perturb_at args)
                    (Args.perturb_text args) w
              | Args.Thoughts =>
                  thoughts_run P a (Args.thoughts args)
                    (Args.history_window args) (Args.perturb_at args)
                    (Args.perturb_text args) w
              end in
            (Ran o, w')
          else (Ran (Exit 1), w)
      end
    end.

(** The count the chosen mode runs for, and the tag its records carry. *)
Definition mode_count (args : Args.t) : nat :=
  match Args.mode args with
  | Args.Baseline => Z.to_nat (Args.samples args)
  | Args.Loop => Z.to_nat (Args.iterations args)
  | Args.Thoughts => Z.to_nat (Args.thoughts args)
  end.

Definition mode_tag (args : Args.t) : str :=
  match Args.mode args with
  | Args.Baseline => py "baseline"
  | Args.Loop => py "loop"
  | Args.Thoughts => py "thoughts"
  end.

(** Raw Notes with one category too long and one that is no list. *)
Definition raw_notes : dict :=
  [(py "premises",
    JList [JStr (py "a"); JStr (py "b"); JStr (py "c"); JStr (py "d")]);
   (py "plan_next", JInt 7)].

(** A platform whose endpoint always gives the same reply. *)
Definition steady_machine : platform :=
  {| json_loads := Json.loads;
     py_repr := Repr.repr;
     endpoint :=
       fun _ _ =>
         Some (qq "{'notes': {'premises': ['a']}, 'answer': 'ok'}");
     utcnow := fun _ => py "2025-01-01T00:00:00";
     latency := fun _ => FDec 5 (-1);
     SYSTEM_PROMPT := []; FORMAT_INSTRUCTIONS := [];
     BASE_INSTRUCTIONS := []; LOOP_INSTRUCTIONS := [];
     THOUGHTS_FORMAT := []; THOUGHTS_INSTRUCTIONS := [];
     THOUGHTS_EXAMPLE := [] |}.

(** A command line: a stepwise run of two steps on a scenario file. *)
Definition from_file : Args.t :=
  {| Args.mode := Args.Thoughts;
     Args.scenario := None;
     Args.scenario_file := Some (py "scenario.txt");
     Args.samples := 10;
     Args.iterations := 15;
     Args.perturb_at := None;
     Args.perturb_text := [];
     Args.thoughts := 2;
     Args.history_window := 5;
     Args.temperature := FDec 2 (-1);
     Args.seed := 42;
     Args.model := py "llama3.2:3b" |}.

(** A machine with that one file, and an endpoint that can be reached. *)
Definition one_file : host :=
  {| read_file :=
       fun path =>
         if str_eqb path (py "scenario.txt")
         then Some (py " A Mars habitat. " ++ [nl])
         else None;
     tags_reachable := true |}.

(* ================================================================== *)
(** * Brace matching isolates the first top-level object *)

(** ** Slices with bounds inside the list *)

Lemma bound_inside {A} (l : list A) (n : nat) :
  (n <= length l)%nat -> bound l (Z.of_nat n) = n.
Proof.
  intros H. unfold bound, len.
  destruct (Z.ltb_spec (Z.of_nat n) 0) as [Hn|_]; [lia|].
  rewrite Z.min_l by lia. apply Nat2Z.id.
Qed.

Lemma slice_from_app {A} (pre rest : list A) :
  slice_from (pre ++ rest) (len pre) = rest.
Proof.
  unfold slice_from, len.
  rewrite bound_inside by (rewrite length_app; lia).
  rewrite skipn_app, skipn_all, Nat.sub_diag. reflexivity.
Qed.

Lemma slice_app {A} (pre mid post : list A) :
  slice (pre ++ mid ++ post) (len pre) (len pre + len mid) = mid.
Proof.
  unfold slice, len. rewrite <- Nat2Z.inj_add.
  rewrite !bound_inside by (rewrite !length_app; lia).
  rewrite skipn_app, skipn_all, Nat.sub_diag. simpl skipn.
  rewrite app_nil_l.
  replace (length pre + length mid - length pre)%nat with (length mid) by lia.
  rewrite firstn_app, firstn_all, Nat.sub_diag. simpl. apply app_nil_r.
Qed.

(** Lists compared up to the bracketing of their concatenations. *)
Ltac app_norm :=
  repeat (rewrite <- app_assoc || rewrite <- app_comm_cons); simpl;
  repeat (rewrite <- app_assoc || rewrite <- app_comm_cons).

Section Frames.

Variable body : str.
Let obj : str := lbrace :: body ++ [rbrace].

Lemma lstrip_by_stop (p : ascii -> bool) (c : ascii) (a b : str) :
  p c = false ->
  exists a0 a', a = a0 ++ a' /\ lstrip_by p (a ++ c :: b) = a' ++ c :: b.
Proof.
  intros Hc. induction a as [|x a IH]; simpl.
  - exists [], []. now rewrite Hc.
  - destruct (p x) eqn:Hx.
    + destruct IH as (a0 & a' & -> & E). exists (x :: a0), a'. now rewrite E.
    + exists [], (x :: a). auto.
Qed.

Lemma framed_lstrip (p : ascii -> bool) (s : str) :
  p lbrace = false -> framed obj s -> framed obj (lstrip_by p s).
Proof.
  intros Hp (pre & post & -> & Hpre).
  destruct (lstrip_by_stop p lbrace pre (body ++ [rbrace] ++ post) Hp)
    as (a0 & a' & -> & E).
  exists a', post. split.
  - unfold obj. simpl in *. rewrite <- !app_assoc in *. simpl. exact E.
  - apply Forall_app in Hpre. tauto.
Qed.

Lemma framed_rstrip (p : ascii -> bool) (s : str) :
  p rbrace = false -> framed obj s -> framed obj (rstrip_by p s).
Proof.
  intros Hp (pre & post & -> & Hpre). unfold rstrip_by.
  replace (rev (pre ++ obj ++ post))
    with (rev post ++ rbrace :: rev (pre ++ lbrace :: body)).
  2:{ unfold obj. rewrite !rev_app_distr. simpl. rewrite !rev_app_distr.
      simpl. now app_norm. }
  destruct (lstrip_by_stop p rbrace (rev post)
              (rev (pre ++ lbrace :: body)) Hp) as (a0 & a' & _ & E).
  rewrite E. exists pre, (rev a'). split; [|exact Hpre].
  rewrite rev_app_distr. simpl. rewrite rev_involutive.
  unfold obj. now app_norm.
Qed.

Lemma framed_strip_by (p : ascii -> bool) (s : str) :
  p lbrace = false -> p rbrace = false ->
  framed obj s -> framed obj (strip_by p s).
Proof.
  intros Hl Hr H. unfold strip_by.
  now apply framed_rstrip, framed_lstrip.
Qed.

(** Dropping a leading [json] tag keeps the frame: the tag lies before
    the first opening brace. *)
Lemma framed_drop_tag (s : str) :
  startswith (lower s) (py "json") = true ->
  framed obj s -> framed obj (slice_from s 4).
Proof.
  intros Htag (pre & post & -> & Hpre).
  destruct pre as [|c1 [|c2 [|c3 [|c4 pre]]]];
    try (exfalso; revert Htag; unfold obj; simpl;
         rewrite ?andb_false_r; simpl; rewrite ?andb_false_r;
         discriminate).
  exists pre, post. split.
  - unfold slice_from, bound, len. simpl length.
    replace (4 <? 0) with false by reflexivity.
    rewrite Z.min_l by lia. reflexivity.
  - now inversion Hpre as [|? ? _ [|? ? _ [|? ? _ [|? ? _ H]]]]. 
Qed.

(** The first opening brace of a framed text is where the object starts. *)
Lemma find_from_frame (pre rest : str) (i : Z) :
  Forall (fun c => c <> lbrace) pre ->
  find_from (py "{") (pre ++ lbrace :: rest) i = i + len pre.
Proof.
  intros Hpre. revert i.
  induction Hpre as [|c pre Hc _ IH]; intros i; simpl.
  - unfold len. simpl. lia.
  - destruct (Ascii.eqb_spec c "{"%char) as [->|_]; [now elim Hc|].
    simpl. rewrite IH. unfold len. simpl length. lia.
Qed.

(** Properly nested text is passed over without the depth reaching 0. *)
Lemma match_braces_nested (s : str) (start : Z) (a : str) :
  nested a ->
  forall rest i depth,
    0 < depth ->
    match_braces s start (a ++ rest) i depth
    = match_braces s start rest (i + len a) depth.
Proof.
  induction 1 as [|c a Hl Hr _ IH|a b _ IHa _ IHb]; intros rest i depth Hd.
  - simpl. f_equal. unfold len. simpl. lia.
  - simpl.
    destruct (Ascii.eqb_spec c "{"%char) as [E|_]; [now elim Hl|].
    destruct (Ascii.eqb_spec c "}"%char) as [E|_]; [now elim Hr|].
    rewrite IH by assumption. f_equal. unfold len. simpl length. lia.
  - change (match_braces s start ((lbrace :: a ++ rbrace :: b) ++ rest) i depth)
      with (match_braces s start ((a ++ rbrace :: b) ++ rest) (i + 1)
              (depth + 1)).
    rewrite <- app_assoc. rewrite IHa by lia.
    change (match_braces s start ((rbrace :: b) ++ rest) (i + 1 + len a)
              (depth + 1))
      with (if depth + 1 - 1 =? 0 then Some (slice s start (i + 1 + len a + 1))
            else match_braces s start (b ++ rest) (i + 1 + len a + 1)
                   (depth + 1 - 1)).
    destruct (Z.eqb_spec (depth + 1 - 1) 0) as [E|_]; [lia|].
    replace (depth + 1 - 1) with depth by lia.
    rewrite IHb by assumption. f_equal.
    unfold len. rewrite length_cons, length_app, length_cons. lia.
Qed.

(** On a framed text the brace matching returns the object. *)
Lemma match_braces_frame (s : str) :
  nested body -> framed obj s ->
  (if find s (py "{") =? -1 then None
   else match_braces s (find s (py "{")) (slice_from s (find s (py "{")))
          (find s (py "{")) 0)
  = Some obj.
Proof.
  intros Hbody (pre & post & -> & Hpre).
  unfold find, obj. simpl app.
  rewrite find_from_frame by assumption. simpl Z.add.
  destruct (Z.eqb_spec (len pre) (-1)) as [E|_]; [unfold len in E; lia|].
  rewrite slice_from_app. simpl app.
  rewrite <- app_assoc. simpl app.
  change (match_braces ?s ?st (lbrace :: ?r) ?i 0)
    with (match_braces s st r (i + 1) (0 + 1)).
  rewrite match_braces_nested by (assumption || lia).
  change (match_braces ?s ?st (rbrace :: ?r) ?i (0 + 1))
    with (Some (slice s st (i + 1))).
  f_equal.
  replace (len pre + 1 + len body + 1) with (len pre + len obj).
  2:{ unfold obj, len. rewrite length_cons, length_app. simpl length. lia. }
  replace (pre ++ lbrace :: body ++ rbrace :: post) with (pre ++ obj ++ post)
    by (unfold obj; now app_norm).
  apply (slice_app pre obj post).
Qed.

(** [_extract_json_object] on a framed text. *)
Lemma extract_framed (text : str) :
  nested body -> framed obj text -> _extract_json_object text = Some obj.
Proof.
  intros Hbody Hf. unfold _extract_json_object.
  apply match_braces_frame; [assumption|].
  assert (Hs : framed obj (strip text))
    by (apply framed_strip_by; [reflexivity|reflexivity|assumption]).
  destruct (startswith (strip text) fence); [|assumption].
  assert (Hc : framed obj (strip_chars [bt; " "%char; nl] (strip text)))
    by (apply framed_strip_by; [reflexivity|reflexivity|assumption]).
  destruct (startswith _ (py "json")) eqn:Htag; [|assumption].
  apply framed_strip_by; [reflexivity|reflexivity|].
  now apply framed_drop_tag.
Qed.

End Frames.

(** C6.  For a raw text that, after a prefix holding no opening brace,
    continues with an object whose braces are properly nested (no string
    value unbalances them), [_extract_json_object] returns exactly the text
    of that first top-level object: it stops at the brace that closes it,
    neither earlier nor later, whatever follows. *)
Theorem extract_isolates_first_object (pre body post : str) :
  Forall (fun c => c <> lbrace) pre ->
  nested body ->
  _extract_json_object (pre ++ lbrace :: body ++ rbrace :: post)
  = Some (lbrace :: body ++ [rbrace]).
Proof.
  intros Hpre Hbody. apply extract_framed; [assumption|].
  exists pre, post. split; [now app_norm | assumption].
Qed.

Ltac plain_chars :=
  repeat (apply nested_char; [intro; discriminate | intro; discriminate |]).

Lemma extract_isolates_first_object_witness :
  _extract_json_object
    (qq "Sure, here it is: {'notes': {'premises': ['a']}, 'answer': {}} and {more}")
  = Some (qq "{'notes': {'premises': ['a']}, 'answer': {}}").
Proof.
  apply (extract_isolates_first_object
           (qq "Sure, here it is: ")
           (qq "'notes': {'premises': ['a']}, 'answer': {}")
           (qq " and {more}")).
  - repeat constructor; intro E; discriminate E.
  - vm_compute. plain_chars.
    apply (nested_group (qq "'premises': ['a']") (qq ", 'answer': {}")).
    + vm_compute. plain_chars. constructor.
    + vm_compute. plain_chars. apply (nested_group [] []); constructor.
Defined.

(* ================================================================== *)
(** * What the fenced case needs of [json.loads]

    Two facts about Python's [json.loads], proved here of the reference
    one: whitespace around the document is ignored, and no document starts
    with a backtick. *)

Module JsonFacts.
Import Json.

Lemma scan_app (st : option (list token * mode)) (a b : str) :
  scan st (a ++ b) = scan (scan st a) b.
Proof.
  revert st. induction a as [|c a IH]; intros st; simpl; [reflexivity|].
  destruct st as [st|]; [apply IH|].
  now destruct b.
Qed.

Lemma scan_None (s : str) : scan None s = None.
Proof. now destruct s. Qed.

Lemma is_ws_cases (c : ascii) :
  is_ws c = true ->
  c = " "%char \/ c = "009"%char \/ c = "010"%char \/ c = "013"%char.
Proof.
  unfold is_ws, code. rewrite !orb_true_iff, !Z.eqb_eq.
  intros H. rewrite <- (ascii_N_embedding c).
  destruct H as [[[H|H]|H]|H];
    apply (f_equal Z.to_N) in H; rewrite N2Z.id in H; rewrite H; simpl; auto.
Qed.

Lemma scan_ws_between (toks : list token) (w : str) :
  forallb is_ws w = true ->
  scan (Some (toks, Between)) w = Some (toks, Between).
Proof.
  induction w as [|c w IH]; simpl; [reflexivity|].
  rewrite andb_true_iff. intros [Hc Hw]. unfold between. rewrite Hc.
  now apply IH.
Qed.

(** Trailing whitespace ends a pending atom and changes nothing else. *)
Lemma finish_scan_ws (st : option (list token * mode)) (w : str) :
  forallb is_ws w = true -> finish (scan st w) = finish st.
Proof.
  revert st. induction w as [|c w IH]; intros st; simpl; [reflexivity|].
  rewrite andb_true_iff. intros [Hc Hw].
  destruct st as [[toks m]|]; [|reflexivity].
  rewrite (IH _ Hw).
  destruct (is_ws_cases c Hc) as [-> | [-> | [-> | ->]]];
    destruct m; reflexivity.
Qed.

Lemma lex_ws (w1 s w2 : str) :
  forallb is_ws w1 = true -> forallb is_ws w2 = true ->
  lex (w1 ++ s ++ w2) = lex s.
Proof.
  intros H1 H2. unfold lex.
  rewrite !scan_app, (scan_ws_between [] w1 H1).
  now apply finish_scan_ws.
Qed.

Lemma loads_ws (w1 s w2 : str) :
  forallb is_ws w1 = true -> forallb is_ws w2 = true ->
  loads (w1 ++ s ++ w2) = loads s.
Proof. intros H1 H2. unfold loads. now rewrite lex_ws. Qed.

Lemma loads_backtick (s : str) : loads (bt :: s) = None.
Proof.
  unfold loads, lex. simpl scan.
  change (step ([], Between) bt) with (@None (list token * mode)).
  now rewrite scan_None.
Qed.

End JsonFacts.

(* ================================================================== *)
(** * A fenced object parses as its inner content *)

Section Fenced.

Variable loads : str -> option json.

(** [json.loads] ignores whitespace around the document. *)
Hypothesis loads_ws :
  forall w1 s w2,
    forallb Json.is_ws w1 = true -> forallb Json.is_ws w2 = true ->
    loads (w1 ++ s ++ w2) = loads s.

(** [json.loads] raises on a text that starts with a backtick. *)
Hypothesis loads_backtick : forall s, loads (bt :: s) = None.

Lemma ws_no_brace (w : str) :
  forallb Json.is_ws w = true -> Forall (fun c => c <> lbrace) w.
Proof.
  induction w as [|c w IH]; simpl; [constructor|].
  rewrite andb_true_iff. intros [Hc Hw]. constructor; [|auto].
  intros ->. discriminate Hc.
Qed.

(** C8.  Let the raw text be a code fence, a language tag (any text with
    no opening brace, possibly empty), the inner content, and the closing
    fence, where the inner content is a JSON object with properly nested
    braces between optional whitespace.  When [json.loads] reads the inner
    content as [v], [parse_model_json] returns [v] for the fenced text. *)
Theorem fenced_object_parses_as_inner (tag w1 body w2 : str) (v : json) :
  Forall (fun c => c <> lbrace) tag ->
  forallb Json.is_ws w1 = true ->
  forallb Json.is_ws w2 = true ->
  nested body ->
  loads (w1 ++ (lbrace :: body ++ [rbrace]) ++ w2) = Some v ->
  parse_model_json loads
    (fence ++ tag ++ w1 ++ (lbrace :: body ++ [rbrace]) ++ w2 ++ fence)
  = Ok v.
Proof.
  intros Htag H1 H2 Hbody Hv.
  rewrite loads_ws in Hv by assumption.
  unfold parse_model_json, parse_candidate.
  change (fence ++ ?r) with (bt :: [bt; bt] ++ r).
  rewrite loads_backtick.
  rewrite (extract_framed body); [simpl nonempty; now rewrite Hv|assumption|].
  exists ([bt; bt; bt] ++ tag ++ w1), (w2 ++ fence). split.
  - now app_norm.
  - repeat (apply Forall_app; split); auto using ws_no_brace.
    repeat constructor; intro; discriminate.
Qed.

End Fenced.

Lemma fenced_object_parses_as_inner_witness :
  Json.loads ([nl] ++ qq "{'notes': {'premises': ['a']}}" ++ [nl])
  = Some (JDict [(py "notes",
                  JDict [(py "premises", JList [JStr (py "a")])])])
  /\ parse_model_json Json.loads
       (fence ++ py "json" ++ [nl] ++ qq "{'notes': {'premises': ['a']}}"
        ++ [nl] ++ fence)
     = Ok (JDict [(py "notes",
                   JDict [(py "premises", JList [JStr (py "a")])])]).
Proof.
  split; [reflexivity|].
  apply (fenced_object_parses_as_inner Json.loads JsonFacts.loads_ws
           JsonFacts.loads_backtick (py "json") [nl]
           (qq "'notes': {'premises': ['a']}") [nl]).
  - repeat constructor; intro; discriminate.
  - reflexivity.
  - reflexivity.
  - vm_compute. plain_chars.
    apply (nested_group (qq "'premises': ['a']") []).
    + vm_compute. plain_chars. constructor.
    + constructor.
  - reflexivity.
Defined.

(* ================================================================== *)
(** * The note compactor *)

Lemma slice_to_firstn {A} (l : list A) (n : Z) :
  0 <= n -> slice_to l n = firstn (Z.to_nat n) l.
Proof.
  intros Hn. unfold slice_to, bound, len.
  destruct (Z.ltb_spec n 0) as [H|_]; [lia|].
  destruct (Z.le_ge_cases n (Z.of_nat (length l))) as [H|H].
  - now rewrite Z.min_l.
  - rewrite Z.min_r, Nat2Z.id by lia.
    rewrite firstn_all. symmetry. apply firstn_all2. lia.
Qed.

Lemma compact_notes_eq (repr : json -> str) (notes : dict) (n : Z) :
  0 <= n ->
  compact_notes repr notes n
  = map (fun k => (k, JList (firstn (Z.to_nat n)
                               (category_items repr notes k))))
      NOTE_KEYS.
Proof.
  intros Hn. unfold compact_notes. apply map_ext. intros k.
  rewrite slice_to_firstn by assumption.
  unfold category_items, get. destruct (lookup notes k) as [[]|]; reflexivity.
Qed.

(** C7.  [compact_notes(notes, 3)] is defined on every mapping.  Its keys
    are exactly the four categories, in their fixed order; each one maps
    to a list of at most three items, the first three of: nothing when the
    category is missing, the raw list when it is one, and the single
    string [str(value)] otherwise.  The two examples of the specification
    evaluate as it says. *)
Theorem compact_notes_normalises (repr : json -> str) (notes : dict) :
  map fst (compact_notes repr notes 3) = NOTE_KEYS
  /\ (forall k,
        In k NOTE_KEYS ->
        exists items,
          lookup (compact_notes repr notes 3) k = Some (JList items)
          /\ items = firstn 3 (category_items repr notes k)
          /\ (length items <= 3)%nat)
  /\ lookup
       (compact_notes repr
          [(py "premises",
            JList [JStr (py "a"); JStr (py "b"); JStr (py "c"); JStr (py "d")])]
          3)
       (py "premises")
     = Some (JList [JStr (py "a"); JStr (py "b"); JStr (py "c")])
  /\ compact_notes repr [] 3
     = [(py "premises", JList []); (py "hypotheses", JList []);
        (py "uncertainties", JList []); (py "plan_next", JList [])].
Proof.
  split; [reflexivity|]. split; [|split; reflexivity].
  intros k Hk. rewrite compact_notes_eq by lia.
  exists (firstn 3 (category_items repr notes k)).
  split; [|split; [reflexivity|apply firstn_le_length]].
  simpl in Hk. destruct Hk as [<-|[<-|[<-|[<-|[]]]]]; reflexivity.
Qed.

(* ================================================================== *)
(** * The rendered thought history *)

Lemma recent_first (thoughts : list str) (k : Z) :
  rev (if 0 <? k then slice_from thoughts (- k) else [])
  = firstn (Z.to_nat k) (rev thoughts).
Proof.
  destruct (Z.ltb_spec 0 k) as [Hk|Hk].
  - unfold slice_from, bound, len.
    destruct (Z.ltb_spec (- k) 0) as [_|H]; [|lia].
    rewrite firstn_rev. do 2 f_equal. lia.
  - replace (Z.to_nat k) with O by lia. reflexivity.
Qed.

Lemma nonempty_lines (shown : list str) :
  nonempty (join [nl] (map (fun t => py "- " ++ t) shown)) = nonempty shown.
Proof. destruct shown as [|a [|b shown]]; reflexivity. Qed.

(** C9.  The rendered block is the header followed by the last
    [history_window] thoughts (all of them when there are fewer), the most
    recent first, one per line after a dash; earlier thoughts do not
    appear.  When that selection is empty (no thought yet, or a window
    that is not positive) the block shows the placeholder [- (none)].
    With a window of 2 and the history t1, t2, t3 it shows t3, then t2. *)
Theorem render_thought_history_window (thoughts : list str) (k : Z) :
  render_thought_history thoughts k
  = py "THOUGHT HISTORY (most recent first):" ++ [nl]
    ++ match firstn (Z.to_nat k) (rev thoughts) with
       | [] => py "- (none)"
       | shown => join [nl] (map (fun t => py "- " ++ t) shown)
       end
  /\ render_thought_history [] k
     = py "THOUGHT HISTORY (most recent first):" ++ [nl] ++ py "- (none)"
  /\ render_thought_history [py "t1"; py "t2"; py "t3"] 2
     = py "THOUGHT HISTORY (most recent first):" ++ [nl]
       ++ py "- t3" ++ [nl] ++ py "- t2".
Proof.
  assert (H : forall ts,
             render_thought_history ts k
             = py "THOUGHT HISTORY (most recent first):" ++ [nl]
               ++ match firstn (Z.to_nat k) (rev ts) with
                  | [] => py "- (none)"
                  | shown => join [nl] (map (fun t => py "- " ++ t) shown)
                  end).
  { intros ts. unfold render_thought_history.
    rewrite nonempty_lines, recent_first.
    now destruct (firstn (Z.to_nat k) (rev ts)). }
  split; [apply H|]. split; [|reflexivity].
  rewrite H. simpl rev. now rewrite firstn_nil.
Qed.

(* ================================================================== *)
(** * One iteration of each controller *)

Lemma parse_model_json_raises (loads : str -> option json) (text : str)
  (e : exc) :
  parse_model_json loads text = Raise e ->
  loads text = None /\ parse_candidate loads text = None
  /\ Re.search next_thought_re text = None
  /\ exists msg, e = ValueError msg.
Proof.
  unfold parse_model_json.
  destruct (loads text); [discriminate|].
  destruct (parse_candidate loads text); [discriminate|].
  destruct (Re.search next_thought_re text); [discriminate|].
  intros [= <-]. eauto.
Qed.

Section Iteration.

Variable P : platform.
Variable a : arguments.

Lemma parse_or_error_payload (text : str) (w : world) :
  parse_or_error P text w = (Done (payload (json_loads P) text), w).
Proof.
  unfold parse_or_error, payload.
  destruct (parse_model_json (json_loads P) text) as [v|e] eqn:E;
    [reflexivity|].
  apply parse_model_json_raises in E. now destruct E as (_ & _ & _ & msg & ->).
Qed.

(** An iteration of the batch loop: the request; on a reply, the record;
    then the console summary, which can raise. *)
Lemma baseline_body_run (i : nat) (w : world) :
  baseline_body P a i tt w
  = match endpoint P (length (requests w)) (baseline_messages P a) with
    | None => (Exit 1, sent w (baseline_messages P a))
    | Some content =>
        let parsed := payload (json_loads P) (strip content) in
        let w' :=
          logged w (baseline_messages P a) (baseline_record P a i parsed) in
        match answer_summary parsed with
        | Ok _ => (Done tt, w')
        | Raise e => (Uncaught e, w')
        end
    end.
Proof.
  unfold baseline_body, bind, ollama_chat.
  destruct (endpoint P _ _) as [content|]; [|reflexivity].
  rewrite parse_or_error_payload. unfold log_jsonl, eval. cbn zeta.
  now destruct (answer_summary _).
Qed.

Lemma loop_body_run (perturb_at : option Z) (perturb_text : str) (k : nat)
  (st : loop_state) (w : world) :
  loop_body P a perturb_at perturb_text k st w
  = let current := loop_scenario a perturb_at perturb_text k st in
    match loop_messages P st current with
    | Raise e => (Uncaught e, w)
    | Ok messages =>
        match endpoint P (length (requests w)) messages with
        | None => (Exit 1, sent w messages)
        | Some content =>
            let parsed := payload (json_loads P) (strip content) in
            let notes := loop_notes P parsed (l_notes st) in
            let w' :=
              logged w messages
                (loop_record P a k current
                   (loop_change_log perturb_at perturb_text k) notes parsed) in
            match answer_summary parsed with
            | Ok _ => (Done {| l_notes := notes; l_scenario := current |}, w')
            | Raise e => (Uncaught e, w')
            end
        end
    end.
Proof.
  unfold loop_body, bind, ollama_chat, eval. cbn zeta.
  destruct (loop_messages P st _) as [messages|e]; [|reflexivity].
  destruct (endpoint P _ _) as [content|]; [|reflexivity].
  rewrite parse_or_error_payload. unfold log_jsonl.
  now destruct (answer_summary _).
Qed.

Lemma thoughts_body_run (history_window : Z) (perturb_at : option Z)
  (perturb_text : str) (step : nat) (st : thoughts_state) (w : world) :
  thoughts_body P a history_window perturb_at perturb_text step st w
  = let current := thoughts_scenario a perturb_at perturb_text step st in
    let messages := thoughts_messages P st current history_window in
    match endpoint P (length (requests w)) messages with
    | None => (Exit 1, sent w messages)
    | Some content =>
        let parsed := payload (json_loads P) (strip content) in
        let next_thought := next_thought_of P parsed in
        let notes := thoughts_notes P parsed (t_notes st) in
        let thoughts := thoughts_append (t_thoughts st) next_thought in
        (Done {| t_notes := notes; t_thoughts := thoughts;
                 t_scenario := current |},
         logged w messages
           (thoughts_record P a step current
              (thoughts_change_log perturb_at perturb_text step) notes
              next_thought thoughts history_window))
    end.
Proof.
  unfold thoughts_body, bind, ollama_chat. cbn zeta.
  destruct (endpoint P _ _) as [content|]; [|reflexivity].
  now rewrite parse_or_error_payload.
Qed.

End Iteration.

(* ================================================================== *)
(** * Loops *)

Lemma for_range_split {St} (body : nat -> St -> io St) (k n start : nat)
  (st : St) (w : world) :
  for_range body start (k + n) st w
  = match for_range body start k st w with
    | (Done st', w') => for_range body (start + k) n st' w'
    | (Exit code, w') => (Exit code, w')
    | (Uncaught e, w') => (Uncaught e, w')
    end.
Proof.
  revert start st w. induction k as [|k IH]; intros start st w; simpl.
  - unfold ret. now rewrite Nat.add_0_r.
  - unfold bind. destruct (body start st w) as [[st'|code|e] w'];
      [|reflexivity|reflexivity].
    rewrite IH. now rewrite Nat.add_succ_comm.
Qed.

(** An invariant [I] of the loop-carried state and the world is kept by a
    whole loop when every iteration keeps it; [Q] is what holds of the
    world when the loop ends early. *)
Lemma for_range_inv {St} (body : nat -> St -> io St)
  (I : nat -> St -> world -> Prop) (Q : world -> Prop) :
  (forall k st w o w',
      I k st w -> body k st w = (o, w') ->
      match o with Done st' => I (S k) st' w' | _ => Q w' end) ->
  forall n start st w o w',
    I start st w -> for_range body start n st w = (o, w') ->
    match o with Done st' => I (start + n)%nat st' w' | _ => Q w' end.
Proof.
  intros Hstep. induction n as [|n IH]; intros start st w o w' HI; simpl.
  - intros [= <- <-]. now rewrite Nat.add_0_r.
  - unfold bind. destruct (body start st w) as [o1 w1] eqn:E.
    specialize (Hstep _ _ _ _ _ HI E).
    destruct o1 as [st1|code|e].
    + intros H. rewrite <- Nat.add_succ_comm. now apply (IH _ _ _ _ _ Hstep).
    + now intros [= <- <-].
    + now intros [= <- <-].
Qed.

(* ================================================================== *)
(** * Carried notes after a failed parse *)

Lemma error_payload_notes (P : platform) (text msg : str) (prior : dict) :
  loop_notes P (error_payload text msg) prior = empty_notes
  /\ thoughts_notes P (error_payload text msg) prior = empty_notes
  /\ next_thought_of P (error_payload text msg) = []
  /\ answer_summary (error_payload text msg) = Ok [].
Proof. repeat split; reflexivity. Qed.

(** C1, as the code has it.  When the reply of an iteration fails every
    extraction stage, the iteration still completes, and the carried Notes
    after it are the empty Notes, whatever they were before: the error
    payload has no [notes] entry, the controllers read a missing entry as
    an empty mapping, and the compactor turns that into four empty
    categories.  This holds in the refinement loop and in the stepwise
    loop (where the thought history is left as it was).  A payload whose
    [notes] entry is a mapping replaces the carried Notes by its
    compaction. *)
Theorem failed_parse_resets_notes (P : platform) (a : arguments)
  (perturb_at : option Z) (perturb_text : str) (k : nat) (w : world)
  (content : str) (e : exc) :
  parse_model_json (json_loads P) (strip content) = Raise e ->
  (forall st messages,
      loop_messages P st (loop_scenario a perturb_at perturb_text k st)
      = Ok messages ->
      endpoint P (length (requests w)) messages = Some content ->
      exists w',
        loop_body P a perturb_at perturb_text k st w
        = (Done {| l_notes := empty_notes;
                   l_scenario := loop_scenario a perturb_at perturb_text k st |},
           w'))
  /\ (forall history_window st,
        endpoint P (length (requests w))
          (thoughts_messages P st
             (thoughts_scenario a perturb_at perturb_text k st) history_window)
        = Some content ->
        exists w',
          thoughts_body P a history_window perturb_at perturb_text k st w
          = (Done {| t_notes := empty_notes;
                     t_thoughts := t_thoughts st;
                     t_scenario :=
                       thoughts_scenario a perturb_at perturb_text k st |},
             w'))
  /\ (forall d notes prior,
        lookup d (py "notes") = Some (JDict notes) ->
        loop_notes P (JDict d) prior = compact_notes (py_repr P) notes 3
        /\ thoughts_notes P (JDict d) prior
           = compact_notes (py_repr P) notes 3).
Proof.
  intros Hfail.
  assert (Hp : exists msg,
             payload (json_loads P) (strip content)
             = error_payload (strip content) msg).
  { unfold payload. rewrite Hfail.
    apply parse_model_json_raises in Hfail.
    destruct Hfail as (_ & _ & _ & msg & ->). now exists msg. }
  destruct Hp as (msg & Hp).
  destruct (error_payload_notes P (strip content) msg []) as (_ & _ & Hn & Ha).
  split; [|split].
  - intros st messages Hm He. rewrite loop_body_run. cbn zeta.
    rewrite Hm, He, Hp, Ha.
    rewrite (proj1 (error_payload_notes P _ _ _)). eauto.
  - intros hw st He. rewrite thoughts_body_run. cbn zeta.
    rewrite He, Hp, Hn.
    rewrite (proj1 (proj2 (error_payload_notes P _ _ _))). eauto.
  - intros d notes prior Hd. unfold loop_notes, thoughts_notes, get.
    now rewrite Hd.
Qed.

Lemma failed_parse_resets_notes_witness :
  let P := Example.machine [Some (py "not json")] in
  let a := Example.args (py "S") in
  let st := {| l_notes := [(py "premises", JList [JStr (py "a")])];
               l_scenario := py "S" |} in
  exists w',
    loop_body P a None [] 0 st Example.start
    = (Done {| l_notes := empty_notes; l_scenario := py "S" |}, w').
Proof.
  intros P a st.
  assert (Hfail : exists e,
             parse_model_json (json_loads P) (strip (py "not json")) = Raise e)
    by (eexists; reflexivity).
  destruct Hfail as (e & Hfail).
  destruct (failed_parse_resets_notes P a None [] 0 Example.start
              (py "not json") e Hfail) as (Hloop & _).
  eapply (Hloop st); reflexivity.
Defined.

(** C1 fails as stated: in a refinement run whose first reply carries notes
    and whose second reply is not JSON at all, the Notes carried after the
    second iteration are empty, not those carried before it; and the same
    in a stepwise run. *)
Lemma failed_parse_changes_notes :
  let P := Example.machine
             [Some (qq "{'notes': {'premises': ['a']}}"); Some (py "not json")] in
  let a := Example.args (py "S") in
  let kept := [(py "premises", JList [JStr (py "a")]);
               (py "hypotheses", JList []); (py "uncertainties", JList []);
               (py "plan_next", JList [])] in
  (exists msg,
      parse_model_json (json_loads P) (py "not json") = Raise (ValueError msg))
  /\ (exists st1 w1 st2 w2,
        for_range (loop_body P a None []) 0 1 (loop_init a) Example.start
        = (Done st1, w1)
        /\ loop_body P a None [] 1 st1 w1 = (Done st2, w2)
        /\ l_notes st1 = kept /\ l_notes st2 = empty_notes
        /\ l_notes st2 <> l_notes st1)
  /\ (exists st1 w1 st2 w2,
        for_range (thoughts_body P a 5 None []) 0 1 (thoughts_init a)
          Example.start
        = (Done st1, w1)
        /\ thoughts_body P a 5 None [] 1 st1 w1 = (Done st2, w2)
        /\ t_notes st1 = kept /\ t_notes st2 = empty_notes
        /\ t_notes st2 <> t_notes st1).
Proof.
  cbv zeta. split; [eexists; reflexivity|].
  split; do 4 eexists.
  - split; [vm_compute; reflexivity|].
    split; [vm_compute; reflexivity|].
    split; [reflexivity|]. split; [reflexivity|]. discriminate.
  - split; [vm_compute; reflexivity|].
    split; [vm_compute; reflexivity|].
    split; [reflexivity|]. split; [reflexivity|]. discriminate.
Qed.

(* ================================================================== *)
(** * The regex rescue *)

(** C2, as the code has it.  [parse_model_json] takes the raw text and
    nothing else, so its third stage is the same in every mode: when the
    first two stages fail and the text matches the [next_thought] pattern,
    the result is the rescue payload built from the first match; only when
    the pattern does not match either does extraction fail.  In the batch
    loop and in the refinement loop that rescue payload is what the
    iteration records as its response. *)
Theorem regex_rescue_in_every_mode (P : platform) (a : arguments)
  (content : str) (m : list str) :
  json_loads P (strip content) = None ->
  parse_candidate (json_loads P) (strip content) = None ->
  Re.search next_thought_re (strip content) = Some m ->
  parse_model_json (json_loads P) (strip content)
  = Ok (rescue_payload (Re.group1 m))
  /\ (forall i w,
        endpoint P (length (requests w)) (baseline_messages P a)
        = Some content ->
        baseline_body P a i tt w
        = (Done tt,
           logged w (baseline_messages P a)
             (baseline_record P a i (rescue_payload (Re.group1 m)))))
  /\ (forall perturb_at perturb_text k st w messages,
        loop_messages P st (loop_scenario a perturb_at perturb_text k st)
        = Ok messages ->
        endpoint P (length (requests w)) messages = Some content ->
        exists st',
          loop_body P a perturb_at perturb_text k st w
          = (Done st',
             logged w messages
               (loop_record P a k
                  (loop_scenario a perturb_at perturb_text k st)
                  (loop_change_log perturb_at perturb_text k) empty_notes
                  (rescue_payload (Re.group1 m))))).
Proof.
  intros H1 H2 H3.
  assert (Hparse : parse_model_json (json_loads P) (strip content)
                   = Ok (rescue_payload (Re.group1 m)))
    by (unfold parse_model_json; now rewrite H1, H2, H3).
  assert (Hp : payload (json_loads P) (strip content)
               = rescue_payload (Re.group1 m))
    by (unfold payload; now rewrite Hparse).
  split; [exact Hparse|]. split.
  - intros i w He. rewrite baseline_body_run, He. cbn zeta.
    now rewrite Hp.
  - intros pa pt k st w messages Hm He. rewrite loop_body_run. cbn zeta.
    rewrite Hm, He, Hp. eexists. reflexivity.
Qed.

(** Without a match the extraction fails, in every mode. *)
Lemma no_rescue_without_match (loads : str -> option json) (text : str) :
  loads text = None -> parse_candidate loads text = None ->
  Re.search next_thought_re text = None ->
  exists msg, parse_model_json loads text = Raise (ValueError msg).
Proof.
  intros H1 H2 H3. unfold parse_model_json. rewrite H1, H2, H3. eauto.
Qed.

Lemma regex_rescue_in_every_mode_witness :
  parse_model_json Json.loads rescued_text
  = Ok (rescue_payload (py "check power")).
Proof.
  exact (proj1 (regex_rescue_in_every_mode
                  (Example.machine [Some rescued_text])
                  (Example.args (py "S")) rescued_text [py "check power"]
                  eq_refl eq_refl eq_refl)).
Defined.

(** C2 fails as stated: in a batch run, and in a refinement run, a reply
    that is no JSON and holds no braces but matches the pattern is recorded
    with the rescue payload as its response, not with the error payload. *)
Lemma rescue_applies_outside_stepwise :
  let P := Example.machine [Some rescued_text] in
  let a := Example.args (py "S") in
  Json.loads rescued_text = None
  /\ parse_candidate Json.loads rescued_text = None
  /\ (exists r,
        baseline_run P a 1 Example.start
        = (Done tt, logged Example.start (baseline_messages P a) r)
        /\ field r (py "response")
           = Some (rescue_payload (py "check power")))
  /\ (exists m r,
        loop_run P a 1 None [] Example.start
        = (Done tt, logged Example.start m r)
        /\ field r (py "response")
           = Some (rescue_payload (py "check power"))).
Proof.
  cbv zeta. split; [reflexivity|]. split; [reflexivity|]. split.
  - eexists. split; [vm_compute; reflexivity|reflexivity].
  - do 2 eexists. split; [vm_compute; reflexivity|reflexivity].
Qed.

(* ================================================================== *)
(** * The thought history *)




(* ================================================================== *)
(** * The notes a record holds *)

Lemma notes_update_cases (P : platform) (d prior : dict) :
  match lookup d (py "notes") with
  | Some (JDict notes) =>
      loop_notes P (JDict d) prior = compact_notes (py_repr P) notes 3
      /\ thoughts_notes P (JDict d) prior = compact_notes (py_repr P) notes 3
  | Some _ =>
      loop_notes P (JDict d) prior = prior
      /\ thoughts_notes P (JDict d) prior = prior
  | None =>
      loop_notes P (JDict d) prior = empty_notes
      /\ thoughts_notes P (JDict d) prior = empty_notes
  end.
Proof.
  unfold loop_notes, thoughts_notes, get.
  destruct (lookup d (py "notes")) as [[]|]; split; reflexivity.
Qed.

Lemma no_record_added {A} (l : list A) (r : A) : l <> l ++ [r].
Proof.
  intros H. apply (f_equal (@length A)) in H. rewrite length_app in H.
  simpl in H. lia.
Qed.

(** C10, as the code has it.  The record an iteration appends holds, as
    [prior_notes], the Notes carried after that iteration's update, which
    are the Notes the next iteration starts from; the prompt of the
    iteration itself was rendered from the Notes carried before it.  The
    recorded value is the compaction of the reply's own [notes] when that
    entry is a mapping (an absent entry counting as an empty one), and the
    Notes carried before, unchanged, when the entry is present and not a
    mapping.  A payload that is no mapping at all empties the Notes in the
    refinement loop and leaves them unchanged in the stepwise loop.  In the
    stepwise loop no Notes are rendered into any prompt: the messages do
    not depend on them. *)
Theorem record_holds_updated_notes (P : platform) (a : arguments)
  (perturb_at : option Z) (perturb_text : str) (k : nat) (w : world) :
  (forall st o w' r,
      loop_body P a perturb_at perturb_text k st w = (o, w') ->
      log w' = log w ++ [r] ->
      exists messages content,
        loop_messages P st (loop_scenario a perturb_at perturb_text k st)
        = Ok messages
        /\ requests w' = requests w ++ [messages]
        /\ endpoint P (length (requests w)) messages = Some content
        /\ let parsed := payload (json_loads P) (strip content) in
           field r (py "prior_notes")
           = Some (JDict (loop_notes P parsed (l_notes st)))
           /\ (forall st', o = Done st' ->
                           l_notes st' = loop_notes P parsed (l_notes st)))
  /\ (forall history_window st o w' r,
        thoughts_body P a history_window perturb_at perturb_text k st w
        = (o, w') ->
        log w' = log w ++ [r] ->
        exists content,
          endpoint P (length (requests w))
            (thoughts_messages P st
               (thoughts_scenario a perturb_at perturb_text k st)
               history_window)
          = Some content
          /\ let parsed := payload (json_loads P) (strip content) in
             field r (py "prior_notes")
             = Some (JDict (thoughts_notes P parsed (t_notes st)))
             /\ (forall st', o = Done st' ->
                             t_notes st' = thoughts_notes P parsed (t_notes st)))
  /\ (forall d prior,
        match lookup d (py "notes") with
        | Some (JDict notes) =>
            loop_notes P (JDict d) prior = compact_notes (py_repr P) notes 3
            /\ thoughts_notes P (JDict d) prior
               = compact_notes (py_repr P) notes 3
        | Some _ =>
            loop_notes P (JDict d) prior = prior
            /\ thoughts_notes P (JDict d) prior = prior
        | None =>
            loop_notes P (JDict d) prior = empty_notes
            /\ thoughts_notes P (JDict d) prior = empty_notes
        end)
  /\ (forall other prior,
        (forall d, other <> JDict d) ->
        loop_notes P other prior = empty_notes
        /\ thoughts_notes P other prior = prior)
  /\ (forall notes thoughts current history_window,
        thoughts_messages P
          {| t_notes := notes; t_thoughts := thoughts; t_scenario := current |}
          current history_window
        = thoughts_messages P
            {| t_notes := empty_notes; t_thoughts := thoughts;
               t_scenario := current |}
            current history_window).
Proof.
  split; [|split; [|split; [|split]]].
  - intros st o w' r. rewrite loop_body_run. cbn zeta.
    destruct (loop_messages P st _) as [messages|e];
      [|intros [= <- <-] H; now apply no_record_added in H].
    destruct (endpoint P _ _) as [content|] eqn:He;
      [|intros [= <- <-] H; now apply no_record_added in H].
    intros Hbody Hlog. exists messages, content. split; [reflexivity|].
    assert (Hw : w' = logged w messages
                        (loop_record P a k
                           (loop_scenario a perturb_at perturb_text k st)
                           (loop_change_log perturb_at perturb_text k)
                           (loop_notes P
                              (payload (json_loads P) (strip content))
                              (l_notes st))
                           (payload (json_loads P) (strip content))))
      by (destruct (answer_summary _); now injection Hbody as _ <-).
    subst w'. simpl in Hlog. apply app_inv_head in Hlog.
    injection Hlog as <-.
    split; [reflexivity|]. split; [exact He|]. cbv zeta.
    split; [reflexivity|].
    intros st' ->. destruct (answer_summary _); [|discriminate].
    now injection Hbody as <-.
  - intros hw st o w' r. rewrite thoughts_body_run. cbn zeta.
    destruct (endpoint P _ _) as [content|] eqn:He;
      [|intros [= <- <-] H; now apply no_record_added in H].
    intros [= <- <-] H. simpl in H. apply app_inv_head in H.
    injection H as <-. exists content. split; [reflexivity|]. cbv zeta.
    split; [reflexivity|]. now intros st' [= <-].
  - intros d prior. apply notes_update_cases.
  - intros other prior Hother.
    destruct other; try (split; reflexivity). now elim (Hother d).
  - reflexivity.
Qed.

Lemma record_holds_updated_notes_witness :
  let P := Example.machine [Some (qq "{'notes': {'premises': ['a']}}")] in
  let a := Example.args (py "S") in
  exists o w' r,
    loop_body P a None [] 0 (loop_init a) Example.start = (o, w')
    /\ log w' = [r]
    /\ field r (py "prior_notes") = Some (JDict kept_notes)
    /\ (forall st', o = Done st' -> l_notes st' = kept_notes).
Proof.
  intros P a.
  destruct (loop_body P a None [] 0 (loop_init a) Example.start) as [o w']
    eqn:Hstep.
  assert (Hlog : exists r, log w' = log Example.start ++ [r])
    by (vm_compute in Hstep; injection Hstep as _ <-; eexists; reflexivity).
  destruct Hlog as (r & Hlog). exists o, w', r.
  split; [reflexivity|]. split; [exact Hlog|].
  destruct (proj1 (record_holds_updated_notes P a None [] 0 Example.start)
              (loop_init a) o w' r Hstep Hlog)
    as (messages & content & Hm & _ & He & Hr).
  injection Hm as <-. injection He as <-. exact Hr.
Defined.

(** C10 fails as stated: when a reply's [notes] entry is not a mapping,
    the record of that iteration holds the Notes value that was rendered
    into that iteration's own prompt, which the previous record holds as
    well, and nothing derived from the reply. *)
Lemma record_can_hold_rendered_notes :
  let P := Example.machine
             [Some (qq "{'notes': {'premises': ['a']}}");
              Some (qq "{'notes': 'as before', 'answer': 'ok'}")] in
  let a := Example.args (py "S") in
  exists r0 r1 m0 m1,
    loop_run P a 2 None [] Example.start
    = (Done tt, {| log := [r0; r1]; requests := [m0; m1] |})
    /\ field r1 (py "response")
       = Some (JDict [(py "notes", JStr (py "as before"));
                      (py "answer", JStr (py "ok"))])
    /\ field r1 (py "prior_notes") = Some (JDict kept_notes)
    /\ field r0 (py "prior_notes") = Some (JDict kept_notes)
    /\ loop_messages P {| l_notes := kept_notes; l_scenario := py "S" |}
         (py "S")
       = Ok m1.
Proof.
  cbv zeta. do 4 eexists.
  split; [vm_compute; reflexivity|]. repeat split; reflexivity.
Qed.

(* ================================================================== *)
(** * The trace of a run *)

Lemma nth_error_snoc {A} (l : list A) (x y : A) (i : nat) :
  nth_error (l ++ [x]) i = Some y ->
  nth_error l i = Some y \/ (i = length l /\ y = x).
Proof.
  intros H. destruct (Nat.lt_ge_cases i (length l)) as [Hi|Hi].
  - left. now rewrite nth_error_app1 in H.
  - right. rewrite nth_error_app2 in H by assumption.
    destruct (i - length l)%nat as [|j] eqn:E; simpl in H.
    + split; [lia|congruence].
    + now destruct j.
Qed.

Section Trace.

Context {St : Type}.
Variable body : nat -> St -> io St.
Variable st_ok : nat -> St -> Prop.
Variable req_ok : nat -> list message -> Prop.
Variable rec_ok : nat -> json -> Prop.

Hypothesis body_shape :
  forall k st w o w',
    st_ok k st -> body k st w = (o, w') ->
    iteration_shape st_ok req_ok rec_ok k w o w'.

Lemma trace_full_ok (w0 : world) (k : nat) (w : world) :
  trace_full req_ok rec_ok w0 k w -> trace_ok req_ok rec_ok w0 w.
Proof.
  intros (recs & reqs & H1 & H2 & _ & _ & H3 & H4).
  now exists recs, reqs.
Qed.

Lemma trace_full_sent (w0 : world) (k : nat) (w : world) (m : list message) :
  trace_full req_ok rec_ok w0 k w -> req_ok k m ->
  trace_ok req_ok rec_ok w0 (sent w m).
Proof.
  intros (recs & reqs & H1 & H2 & L1 & L2 & H3 & H4) Hm.
  exists recs, (reqs ++ [m]). simpl. rewrite H2, app_assoc.
  repeat split; try assumption.
  intros i m' Hi. apply nth_error_snoc in Hi.
  destruct Hi as [Hi|[-> ->]]; [now apply H4|now rewrite L2].
Qed.

Lemma trace_full_logged (w0 : world) (k : nat) (w : world)
  (m : list message) (r : json) :
  trace_full req_ok rec_ok w0 k w -> req_ok k m -> rec_ok k r ->
  trace_full req_ok rec_ok w0 (S k) (logged w m r).
Proof.
  intros (recs & reqs & H1 & H2 & L1 & L2 & H3 & H4) Hm Hr.
  exists (recs ++ [r]), (reqs ++ [m]). simpl.
  rewrite H1, H2, !app_assoc, !length_app. simpl.
  repeat split; try lia.
  - intros i r' Hi. apply nth_error_snoc in Hi.
    destruct Hi as [Hi|[-> ->]]; [now apply H3|now rewrite L1].
  - intros i m' Hi. apply nth_error_snoc in Hi.
    destruct Hi as [Hi|[-> ->]]; [now apply H4|now rewrite L2].
Qed.

(** Whatever way a run ends, every request and record it added is the
    one of its iteration; a run that completes added one of each per
    iteration. *)
Lemma trace_inv (n : nat) (st : St) (w0 : world) (o : outcome St)
  (w' : world) :
  st_ok 0%nat st ->
  for_range body 0 n st w0 = (o, w') ->
  match o with
  | Done st' => st_ok n st' /\ trace_full req_ok rec_ok w0 n w'
  | _ => trace_ok req_ok rec_ok w0 w'
  end.
Proof.
  intros Hst Hrun.
  apply (for_range_inv body
           (fun k s w => st_ok k s /\ trace_full req_ok rec_ok w0 k w)
           (trace_ok req_ok rec_ok w0)) in Hrun.
  - exact Hrun.
  - intros k s w o1 w1 [Hs Ht] Hb.
    specialize (body_shape _ _ _ _ _ Hs Hb). unfold iteration_shape in *.
    destruct o1 as [s1|code|e].
    + destruct body_shape as (m & r & -> & Hm & Hr & Hs1).
      split; [assumption|now apply trace_full_logged].
    + destruct body_shape as [->|[(m & -> & Hm)|(m & r & -> & Hm & Hr)]].
      * now apply (trace_full_ok w0 k).
      * now apply (trace_full_sent w0 k).
      * apply (trace_full_ok w0 (S k)). now apply trace_full_logged.
    + destruct body_shape as [->|[(m & -> & Hm)|(m & r & -> & Hm & Hr)]].
      * now apply (trace_full_ok w0 k).
      * now apply (trace_full_sent w0 k).
      * apply (trace_full_ok w0 (S k)). now apply trace_full_logged.
  - split; [assumption|].
    exists [], []. rewrite !app_nil_r. repeat split; try reflexivity;
      intros [|i] x; discriminate.
Qed.

End Trace.

(* ================================================================== *)
(** * The scenario in effect *)

Section Scenario.

Variable P : platform.
Variable a : arguments.
Variable perturb_at : option Z.
Variable perturb_text : str.

Let loop_before (k : nat) : str :=
  match k with
  | O => scenario a
  | S j => loop_scenario_at a perturb_at perturb_text j
  end.

Let thoughts_before (k : nat) : str :=
  match k with
  | O => scenario a
  | S j => thoughts_scenario_at a perturb_at perturb_text j
  end.

Lemma loop_scenario_eq (k : nat) (st : loop_state) :
  l_scenario st = loop_before k ->
  loop_scenario a perturb_at perturb_text k st
  = loop_scenario_at a perturb_at perturb_text k.
Proof.
  unfold loop_scenario, loop_scenario_at, loop_before, fires, str_of_nat.
  intros ->. destruct perturb_at as [p|]; [|now destruct k].
  destruct (Z.eqb_spec (Z.of_nat k) p) as [<-|Hne].
  - replace ((0 <=? Z.of_nat k) && (Z.of_nat k <=? Z.of_nat k)) with true
      by (symmetry; apply andb_true_iff; split; lia).
    reflexivity.
  - destruct k as [|j]; unfold loop_scenario_at.
    + replace ((0 <=? p) && (p <=? Z.of_nat 0)) with false; [reflexivity|].
      symmetry. apply andb_false_iff. lia.
    + replace (p <=? Z.of_nat (S j)) with (p <=? Z.of_nat j); [reflexivity|].
      apply eq_true_iff_eq. rewrite !Z.leb_le. lia.
Qed.

Lemma thoughts_scenario_eq (k : nat) (st : thoughts_state) :
  t_scenario st = thoughts_before k ->
  thoughts_scenario a perturb_at perturb_text k st
  = thoughts_scenario_at a perturb_at perturb_text k.
Proof.
  unfold thoughts_scenario, thoughts_scenario_at, thoughts_before, fires,
    str_of_nat.
  intros ->. destruct perturb_at as [p|]; [|now destruct k].
  destruct (Z.eqb_spec (Z.of_nat k) p) as [<-|Hne].
  - replace ((0 <=? Z.of_nat k) && (Z.of_nat k <=? Z.of_nat k)) with true
      by (symmetry; apply andb_true_iff; split; lia).
    reflexivity.
  - destruct k as [|j]; unfold thoughts_scenario_at.
    + replace ((0 <=? p) && (p <=? Z.of_nat 0)) with false; [reflexivity|].
      symmetry. apply andb_false_iff. lia.
    + replace (p <=? Z.of_nat (S j)) with (p <=? Z.of_nat j); [reflexivity|].
      apply eq_true_iff_eq. rewrite !Z.leb_le. lia.
Qed.

Lemma baseline_shape (k : nat) (u : unit) (w : world) (o : outcome unit)
  (w' : world) :
  True ->
  baseline_body P a k u w = (o, w') ->
  iteration_shape (fun _ _ => True) (fun _ m => m = baseline_messages P a)
    (fun _ _ => True) k w o w'.
Proof.
  intros _. destruct u. rewrite baseline_body_run.
  destruct (endpoint P _ _) as [content|]; cbn zeta.
  - destruct (answer_summary _); intros [= <- <-]; simpl; eauto 10.
  - intros [= <- <-]. simpl. eauto.
Qed.

Lemma loop_shape (k : nat) (st : loop_state) (w : world)
  (o : outcome loop_state) (w' : world) :
  l_scenario st = loop_before k ->
  loop_body P a perturb_at perturb_text k st w = (o, w') ->
  iteration_shape (fun k st => l_scenario st = loop_before k)
    (fun k => asks_about P (loop_scenario_at a perturb_at perturb_text k))
    (fun k =>
       records (py "iteration") k
         (loop_scenario_at a perturb_at perturb_text k)
         (loop_change_log perturb_at perturb_text k))
    k w o w'.
Proof.
  intros Hst. rewrite loop_body_run. cbn zeta.
  rewrite (loop_scenario_eq k st Hst).
  unfold loop_messages.
  destruct (render_prior (l_notes st)) as [prior|e];
    [|intros [= <- <-]; now left].
  assert (Hask : asks_about P (loop_scenario_at a perturb_at perturb_text k)
                   [(py "system", SYSTEM_PROMPT P);
                    (py "user",
                     py "SCENARIO:" ++ [nl]
                     ++ loop_scenario_at a perturb_at perturb_text k
                     ++ [nl; nl] ++ prior ++ [nl] ++ LOOP_INSTRUCTIONS P
                     ++ [nl] ++ FORMAT_INSTRUCTIONS P)])
    by (eexists; reflexivity).
  destruct (endpoint P _ _) as [content|].
  - destruct (answer_summary _); intros [= <- <-]; simpl.
    + do 2 eexists. repeat split; try reflexivity. exact Hask.
    + right. right. do 2 eexists. repeat split; try reflexivity. exact Hask.
  - intros [= <- <-]. simpl. right. left. eexists. split; [reflexivity|].
    exact Hask.
Qed.

Lemma thoughts_shape (history_window : Z) (k : nat) (st : thoughts_state)
  (w : world) (o : outcome thoughts_state) (w' : world) :
  t_scenario st = thoughts_before k ->
  thoughts_body P a history_window perturb_at perturb_text k st w = (o, w') ->
  iteration_shape (fun k st => t_scenario st = thoughts_before k)
    (fun k => asks_about P (thoughts_scenario_at a perturb_at perturb_text k))
    (fun k =>
       records (py "step") k
         (thoughts_scenario_at a perturb_at perturb_text k)
         (thoughts_change_log perturb_at perturb_text k))
    k w o w'.
Proof.
  intros Hst. rewrite thoughts_body_run. cbn zeta.
  rewrite (thoughts_scenario_eq k st Hst).
  assert (Hask : asks_about P
                   (thoughts_scenario_at a perturb_at perturb_text k)
                   (thoughts_messages P st
                      (thoughts_scenario_at a perturb_at perturb_text k)
                      history_window))
    by (eexists; reflexivity).
  destruct (endpoint P _ _) as [content|]; intros [= <- <-]; simpl.
  - do 2 eexists. repeat split; try reflexivity. exact Hask.
  - right. left. eexists. split; [reflexivity|]. exact Hask.
Qed.

End Scenario.

(* ================================================================== *)
(** * From the loops to the controllers *)

Lemma loop_run_ends (P : platform) (a : arguments) (iterations : Z)
  (perturb_at : option Z) (perturb_text : str) (w0 : world) :
  exists o,
    for_range (loop_body P a perturb_at perturb_text) 0 (Z.to_nat iterations)
      (loop_init a) w0
    = (o, snd (loop_run P a iterations perturb_at perturb_text w0))
    /\ fst (loop_run P a iterations perturb_at perturb_text w0)
       = match o with
         | Done _ => Done tt
         | Exit code => Exit code
         | Uncaught e => Uncaught e
         end.
Proof.
  unfold loop_run, bind.
  destruct (for_range _ _ _ _ _) as [[st|code|e] w']; eexists; split;
    reflexivity.
Qed.

Lemma thoughts_run_ends (P : platform) (a : arguments)
  (total_thoughts history_window : Z) (perturb_at : option Z)
  (perturb_text : str) (w0 : world) :
  exists o,
    for_range (thoughts_body P a history_window perturb_at perturb_text) 0
      (Z.to_nat total_thoughts) (thoughts_init a) w0
    = (o, snd (thoughts_run P a total_thoughts history_window perturb_at
                 perturb_text w0))
    /\ fst (thoughts_run P a total_thoughts history_window perturb_at
              perturb_text w0)
       = match o with
         | Done _ => Done tt
         | Exit code => Exit code
         | Uncaught e => Uncaught e
         end.
Proof.
  unfold thoughts_run, bind.
  destruct (for_range _ _ _ _ _) as [[st|code|e] w']; eexists; split;
    reflexivity.
Qed.

(** A loop that reached iteration [k] of [n] and exits there has exited. *)
Lemma for_range_exits {St} (body : nat -> St -> io St) (n k : nat)
  (init st : St) (w0 w w' : world) (code : Z) :
  (k < n)%nat ->
  for_range body 0 k init w0 = (Done st, w) ->
  body k st w = (Exit code, w') ->
  for_range body 0 n init w0 = (Exit code, w').
Proof.
  intros Hk Hreach Hexit.
  replace n with (k + S (n - S k))%nat by lia.
  rewrite for_range_split, Hreach. simpl. unfold bind. now rewrite Hexit.
Qed.

(* ================================================================== *)
(** * A transport failure *)

Lemma stopped_after_trace (req_ok : nat -> list message -> Prop)
  (rec_ok : nat -> json -> Prop) (k : nat) (w0 w : world)
  (m : list message) :
  trace_full req_ok rec_ok w0 k w -> stopped_at k w0 m (Exit 1, sent w m).
Proof.
  intros (recs & reqs & H1 & H2 & L1 & L2 & _). exists recs, reqs.
  unfold sent. rewrite H1, H2, app_assoc. repeat split; try assumption.
  discriminate.
Qed.

(** C3.  In each of the three modes: when a run of more than [k]
    iterations has completed its first [k] iterations and the endpoint
    fails on the request of iteration [k], the process exits with status 1
    at once.  The log then holds the [k] records of the completed
    iterations and nothing of iteration [k]; the failed request is the last
    one sent, so it was not retried. *)
Theorem transport_failure_stops_run (P : platform) (a : arguments)
  (k : nat) (w0 w : world) :
  (forall samples,
      (k < Z.to_nat samples)%nat ->
      for_range (baseline_body P a) 0 k tt w0 = (Done tt, w) ->
      endpoint P (length (requests w)) (baseline_messages P a) = None ->
      stopped_at k w0 (baseline_messages P a) (baseline_run P a samples w0))
  /\ (forall iterations perturb_at perturb_text st messages,
        (k < Z.to_nat iterations)%nat ->
        for_range (loop_body P a perturb_at perturb_text) 0 k (loop_init a) w0
        = (Done st, w) ->
        loop_messages P st (loop_scenario a perturb_at perturb_text k st)
        = Ok messages ->
        endpoint P (length (requests w)) messages = None ->
        stopped_at k w0 messages
          (loop_run P a iterations perturb_at perturb_text w0))
  /\ (forall total_thoughts history_window perturb_at perturb_text st,
        (k < Z.to_nat total_thoughts)%nat ->
        for_range
          (thoughts_body P a history_window perturb_at perturb_text) 0 k
          (thoughts_init a) w0
        = (Done st, w) ->
        endpoint P (length (requests w))
          (thoughts_messages P st
             (thoughts_scenario a perturb_at perturb_text k st)
             history_window)
        = None ->
        stopped_at k w0
          (thoughts_messages P st
             (thoughts_scenario a perturb_at perturb_text k st)
             history_window)
          (thoughts_run P a total_thoughts history_window perturb_at
             perturb_text w0)).
Proof.
  split; [|split].
  - intros samples Hk Hreach Hfail. unfold baseline_run.
    rewrite (for_range_exits _ _ k tt tt w0 w
               (sent w (baseline_messages P a)) 1 Hk Hreach)
      by (now rewrite baseline_body_run, Hfail).
    apply (trace_inv _ _ _ _ (baseline_shape P a)) in Hreach; [|exact I].
    now apply (stopped_after_trace _ _ k w0 w) with (1 := proj2 Hreach).
  - intros iterations pa pt st messages Hk Hreach Hm Hfail.
    unfold loop_run, bind.
    rewrite (for_range_exits _ _ k (loop_init a) st w0 w (sent w messages) 1
               Hk Hreach)
      by (rewrite loop_body_run; cbn zeta; now rewrite Hm, Hfail).
    apply (trace_inv _ _ _ _ (loop_shape P a pa pt)) in Hreach;
      [|reflexivity].
    now apply (stopped_after_trace _ _ k w0 w) with (1 := proj2 Hreach).
  - intros total hw pa pt st Hk Hreach Hfail.
    unfold thoughts_run, bind.
    rewrite (for_range_exits _ _ k (thoughts_init a) st w0 w
               (sent w (thoughts_messages P st
                          (thoughts_scenario a pa pt k st) hw)) 1
               Hk Hreach)
      by (rewrite thoughts_body_run; cbn zeta; now rewrite Hfail).
    apply (trace_inv _ _ _ _ (thoughts_shape P a pa pt hw)) in Hreach;
      [|reflexivity].
    now apply (stopped_after_trace _ _ k w0 w) with (1 := proj2 Hreach).
Qed.

Lemma transport_failure_stops_run_witness :
  let P := Example.machine
             [Some (qq "{'answer': 'ok'}"); Some (qq "{'answer': 'ok'}"); None;
              Some (qq "{'answer': 'ok'}"); Some (qq "{'answer': 'ok'}")] in
  let a := Example.args (py "S") in
  exists m, stopped_at 2 Example.start m (loop_run P a 5 None [] Example.start).
Proof.
  intros P a. eexists.
  eapply (proj1 (proj2 (transport_failure_stops_run P a 2 Example.start _))).
  - simpl. lia.
  - vm_compute. reflexivity.
  - vm_compute. reflexivity.
  - reflexivity.
Defined.

(* ================================================================== *)
(** * The perturbation *)


Lemma find_from_eq (sub s : str) (i : Z) :
  find_from sub s i
  = if startswith s sub then i
    else match s with
         | [] => -1
         | _ :: s' => find_from sub s' (i + 1)
         end.
Proof. now destruct s. Qed.






(** The end-to-end scenario of the specification: three iterations, a
    perturbation at index 1 with the text [X happened]. *)
Example perturbation_at_one :
  let P := Example.machine
             [Some (qq "{'answer': 'ok'}"); Some (qq "{'answer': 'ok'}");
              Some (qq "{'answer': 'ok'}")] in
  let a := Example.args (py "S") in
  map (fun r => field r (py "scenario"))
    (log (snd (loop_run P a 3 (Some 1) (py "X happened") Example.start)))
  = [Some (JStr (py "S"));
     Some (JStr (py "S" ++ [nl; nl]
                 ++ py "CHANGE LOG (Iteration 1): X happened"));
     Some (JStr (py "S" ++ [nl; nl]
                 ++ py "CHANGE LOG (Iteration 1): X happened"))].
Proof. vm_compute. reflexivity. Qed.



(* ================================================================== *)
(** * Further properties of the pipeline *)

(** The compactor bounds every category by [max_items], when that is not
    negative. *)
Theorem compact_notes_bounded (repr : json -> str) (notes : dict)
  (max_items : Z) (k : str) (v : json) :
  0 <= max_items ->
  lookup (compact_notes repr notes max_items) k = Some v ->
  exists items, v = JList items /\ (length items <= Z.to_nat max_items)%nat.
Proof.
  intros Hn. rewrite compact_notes_eq by assumption.
  unfold NOTE_KEYS. cbn [map lookup].
  repeat (destruct (str_eqb _ k);
          [intros [= <-]; eexists; split; [reflexivity|apply firstn_le_length]
          |]).
  discriminate.
Qed.

Lemma compact_notes_bounded_witness :
  exists items,
    JList [JStr (py "a"); JStr (py "b")] = JList items
    /\ (length items <= Z.to_nat 2)%nat.
Proof.
  apply (compact_notes_bounded Repr.repr
           [(py "plan_next", JList [JStr (py "a"); JStr (py "b"); JStr (py "c")])]
           2 (py "plan_next")).
  - lia.
  - reflexivity.
Defined.

(** A run of two iterations whose first reply holds a number among its
    premises: one request, one record, and a [TypeError]. *)
Example bad_notes_end_the_run :
  let P := Example.machine
             [Some (qq "{'notes': {'premises': [1]}}");
              Some (qq "{'answer': 'ok'}")] in
  exists r m,
    loop_run P (Example.args (py "S")) 2 None [] Example.start
    = (Uncaught TypeError, {| log := [r]; requests := [m] |}).
Proof. cbv zeta. do 2 eexists. vm_compute. reflexivity. Qed.

(* ================================================================== *)
(** * What the brace matching returns *)

Lemma lstrip_by_split (p : ascii -> bool) (s : str) :
  exists dropped,
    s = dropped ++ lstrip_by p s /\ Forall (fun c => p c = true) dropped.
Proof.
  induction s as [|c s (d & Hs & Hd)]; simpl.
  - now exists [].
  - destruct (p c) eqn:Hc.
    + exists (c :: d). split; [simpl; congruence|now constructor].
    + now exists [].
Qed.

Lemma rstrip_by_split (p : ascii -> bool) (s : str) :
  exists dropped, s = rstrip_by p s ++ dropped.
Proof.
  unfold rstrip_by. destruct (lstrip_by_split p (rev s)) as (d & Hs & _).
  exists (rev d). rewrite <- rev_app_distr, <- Hs. now rewrite rev_involutive.
Qed.

Lemma trimmed_refl (s : str) : trimmed s s.
Proof. exists [], []. now rewrite app_nil_r. Qed.

Lemma trimmed_trans (a b c : str) : trimmed a b -> trimmed b c -> trimmed a c.
Proof.
  intros (p1 & q1 & -> & H1) (p2 & q2 & -> & H2).
  exists (p1 ++ p2), (q2 ++ q1). split; [now app_norm|].
  apply Forall_app. now split.
Qed.

Lemma trimmed_strip_by (p : ascii -> bool) (s : str) :
  p lbrace = false -> trimmed s (strip_by p s).
Proof.
  intros Hp. unfold strip_by.
  destruct (lstrip_by_split p s) as (d & Hs & Hd).
  destruct (rstrip_by_split p (lstrip_by p s)) as (d' & Hs').
  exists d, d'. split; [now rewrite <- Hs', <- Hs|].
  eapply Forall_impl; [|exact Hd]. intros c Hc ->. congruence.
Qed.

Lemma trimmed_drop_tag (s : str) :
  startswith (lower s) (py "json") = true -> trimmed s (slice_from s 4).
Proof.
  intros Htag.
  destruct s as [|c1 [|c2 [|c3 [|c4 s]]]];
    try (exfalso; revert Htag; simpl; rewrite ?andb_false_r; discriminate).
  exists [c1; c2; c3; c4], []. split.
  - rewrite app_nil_r. unfold slice_from, bound, len. simpl length.
    replace (4 <? 0) with false by reflexivity.
    now rewrite Z.min_l by lia.
  - simpl in Htag. rewrite !andb_true_iff in Htag.
    destruct Htag as (H1 & H2 & H3 & H4 & _).
    repeat constructor; intros ->; discriminate.
Qed.

(** The text the brace matching works on is the raw text without a
    brace-free prefix and some suffix. *)
Lemma trimmed_before_matching (text : str) :
  trimmed text
    (let s := strip text in
     if startswith s fence then
       let s := strip_chars [bt; " "%char; nl] s in
       if startswith (lower s) (py "json") then strip (slice_from s 4) else s
     else s).
Proof.
  cbv zeta.
  assert (H1 : trimmed text (strip text))
    by (apply trimmed_strip_by; reflexivity).
  destruct (startswith (strip text) fence); [|exact H1].
  assert (H2 : trimmed text (strip_chars [bt; " "%char; nl] (strip text))).
  { apply (trimmed_trans _ _ _ H1). apply trimmed_strip_by. reflexivity. }
  destruct (startswith _ (py "json")) eqn:Htag; [|exact H2].
  apply (trimmed_trans _ _ _ H2).
  apply (trimmed_trans _ _ _ (trimmed_drop_tag _ Htag)).
  apply trimmed_strip_by. reflexivity.
Qed.

(** [find] either misses, on a text with no opening brace, or stops at the
    first one. *)
Lemma find_brace (s : str) (i : Z) :
  (find_from (py "{") s i = -1 /\ Forall (fun c => c <> lbrace) s)
  \/ (exists pre rest,
        s = pre ++ lbrace :: rest /\ Forall (fun c => c <> lbrace) pre
        /\ find_from (py "{") s i = i + len pre).
Proof.
  revert i. induction s as [|c s IH]; intros i.
  - left. split; [reflexivity|constructor].
  - rewrite find_from_eq.
    replace (startswith (c :: s) (py "{")) with (Ascii.eqb c lbrace)
      by (simpl; now rewrite andb_true_r).
    destruct (Ascii.eqb_spec c lbrace) as [->|Hc].
    + right. exists [], s. repeat split; [constructor|unfold len; simpl; lia].
    + destruct (IH (i + 1)) as [[Hf Hs]|(pre & rest & -> & Hpre & Hf)].
      * left. split; [assumption|now constructor].
      * right. exists (c :: pre), rest. repeat split; [now constructor|].
        rewrite Hf. unfold len. simpl length. lia.
Qed.

(** What the loop has passed over when it returns closes every level that
    was open: the converse of [match_braces_nested]. *)
Lemma match_braces_levels (s : str) (start : Z) (rest : str) :
  forall (n : nat) (i : Z) (r : str),
    match_braces s start rest i (Z.of_nat (S n)) = Some r ->
    exists passed left,
      rest = passed ++ left /\ levels (S n) passed
      /\ r = slice s start (i + len passed).
Proof.
  induction rest as [|ch rest IH]; intros n i r; [discriminate|].
  cbn [match_braces].
  destruct (Ascii.eqb_spec ch lbrace) as [->|Hl].
  - replace (Z.of_nat (S n) + 1) with (Z.of_nat (S (S n))) by lia.
    intros H. destruct (IH _ _ _ H) as (passed & left & -> & Hlev & ->).
    inversion Hlev as [|? a q Ha Hq]; subst.
    inversion Hq as [|? a' q' Ha' Hq']; subst.
    exists (lbrace :: a ++ rbrace :: a' ++ rbrace :: q'), left.
    repeat split.
    + replace (lbrace :: a ++ rbrace :: a' ++ rbrace :: q')
        with ((lbrace :: a ++ rbrace :: a') ++ rbrace :: q')
        by now app_norm.
      constructor; [now constructor|assumption].
    + f_equal. unfold len. simpl length. rewrite !length_app. simpl length.
      rewrite !length_app. simpl length. lia.
  - destruct (Ascii.eqb_spec ch rbrace) as [->|Hr].
    + destruct (Z.eqb_spec (Z.of_nat (S n) - 1) 0) as [E|E].
      * intros [= <-]. exists [rbrace], rest. repeat split.
        assert (n = O) by lia. subst n.
        apply (levels_S O [] []); constructor.
      * destruct n as [|m]; [lia|].
        replace (Z.of_nat (S (S m)) - 1) with (Z.of_nat (S m)) by lia.
        intros H. destruct (IH _ _ _ H) as (passed & left & -> & Hlev & ->).
        exists (rbrace :: passed), left. repeat split.
        -- apply (levels_S (S m) [] passed); [constructor|assumption].
        -- f_equal. unfold len. simpl length. lia.
    + intros H. destruct (IH _ _ _ H) as (passed & left & -> & Hlev & ->).
      inversion Hlev as [|? a q Ha Hq]; subst.
      exists (ch :: a ++ rbrace :: q), left. repeat split.
      * apply (levels_S n (ch :: a) q); [now constructor|assumption].
      * f_equal. unfold len. simpl length. lia.
Qed.

(** Whatever [_extract_json_object] returns is the first balanced group
    of the raw text. *)
Lemma extract_sound (text c : str) :
  _extract_json_object text = Some c ->
  exists pre body post,
    text = pre ++ lbrace :: body ++ rbrace :: post
    /\ Forall (fun x => x <> lbrace) pre
    /\ nested body
    /\ c = lbrace :: body ++ [rbrace].
Proof.
  unfold _extract_json_object.
  pose proof (trimmed_before_matching text) as Ht. cbv zeta in Ht |- *.
  set (s := if startswith (strip text) fence then _ else _) in *.
  clearbody s. destruct Ht as (p & q & Htext & Hp).
  unfold find.
  destruct (find_brace s 0) as [[Hf _]|(pre & rest & Hs & Hpre & Hf)];
    rewrite Hf; [discriminate|].
  destruct (Z.eqb_spec (0 + len pre) (-1)) as [E|_];
    [unfold len in E; lia|].
  subst s text. rewrite Z.add_0_l, slice_from_app.
  cbn [match_braces]. replace (Ascii.eqb lbrace lbrace) with true
    by reflexivity.
  change (0 + 1) with (Z.of_nat 1). intros H.
  apply match_braces_levels in H.
  destruct H as (passed & left & -> & Hlev & ->).
  inversion Hlev as [|? body e Hbody He]; subst.
  inversion He; subst.
  exists (p ++ pre), body, (left ++ q). split; [now app_norm|].
  split; [apply Forall_app; now split|]. split; [assumption|].
  replace (pre ++ lbrace :: (body ++ [rbrace]) ++ left)
    with (pre ++ (lbrace :: body ++ [rbrace]) ++ left) by now app_norm.
  replace (len pre + 1 + len (body ++ [rbrace]))
    with (len pre + len (lbrace :: body ++ [rbrace]))
    by (unfold len; simpl length; lia).
  apply slice_app.
Qed.

Lemma extract_complete (pre body post : str) :
  Forall (fun x => x <> lbrace) pre -> nested body ->
  _extract_json_object (pre ++ lbrace :: body ++ rbrace :: post)
  = Some (lbrace :: body ++ [rbrace]).
Proof.
  intros Hpre Hbody. apply extract_framed; [assumption|].
  exists pre, post. split; [now app_norm|assumption].
Qed.

(** The first balanced group of a text is one piece of it. *)
Lemma first_group_unique (pre body post pre' body' post' : str) :
  pre ++ lbrace :: body ++ rbrace :: post
  = pre' ++ lbrace :: body' ++ rbrace :: post' ->
  Forall (fun x => x <> lbrace) pre -> nested body ->
  Forall (fun x => x <> lbrace) pre' -> nested body' ->
  body = body'.
Proof.
  intros E Hp Hb Hp' Hb'.
  pose proof (extract_complete pre body post Hp Hb) as H1.
  pose proof (extract_complete pre' body' post' Hp' Hb') as H2.
  rewrite E, H2 in H1. injection H1 as H1.
  now apply app_inv_tail in H1.
Qed.

(* ================================================================== *)
(** * What the pattern of the third stage matches *)

Module ReFacts.
Import Re.

Lemma star_sound (p : ascii -> bool) (k : str -> option (list str))
  (s : str) (r : list str) :
  star p k s = Some r ->
  exists w rest, s = w ++ rest /\ forallb p w = true /\ k rest = Some r.
Proof.
  induction s as [|c s IH]; simpl.
  - intros H. now exists [], [].
  - destruct (p c) eqn:Hc; [|intros H; now exists [], (c :: s)].
    destruct (star p k s) as [g|] eqn:E.
    + intros [= ->]. destruct (IH eq_refl) as (w & rest & -> & Hw & Hk).
      exists (c :: w), rest. simpl. now rewrite Hc.
    + intros H. now exists [], (c :: s).
Qed.

Lemma star_complete (p : ascii -> bool) (k : str -> option (list str))
  (w rest : str) :
  forallb p w = true -> k rest <> None -> star p k (w ++ rest) <> None.
Proof.
  intros Hw Hk. induction w as [|c w IH]; simpl in *.
  - destruct rest as [|c rest]; simpl; [assumption|].
    destruct (p c); [|assumption]. now destruct (star p k rest).
  - apply andb_true_iff in Hw. destruct Hw as (-> & Hw).
    specialize (IH Hw). now destruct (star p k (w ++ rest)).
Qed.

Lemma star_group_sound (p : ascii -> bool)
  (k : str -> str -> option (list str)) (s acc : str) (r : list str) :
  star_group p k acc s = Some r ->
  exists w rest,
    s = w ++ rest /\ forallb p w = true /\ k (acc ++ w) rest = Some r.
Proof.
  revert acc. induction s as [|c s IH]; intros acc; simpl.
  - intros H. exists [], []. simpl. now rewrite app_nil_r.
  - destruct (p c) eqn:Hc;
      [|intros H; exists [], (c :: s); simpl; now rewrite app_nil_r].
    destruct (star_group p k (acc ++ [c]) s) as [g|] eqn:E.
    + intros [= ->]. destruct (IH _ E) as (w & rest & -> & Hw & Hk).
      exists (c :: w), rest. simpl. rewrite Hc.
      now rewrite <- app_assoc in Hk.
    + intros H. exists [], (c :: s). simpl. now rewrite app_nil_r.
Qed.

Lemma star_group_complete (p : ascii -> bool)
  (k : str -> str -> option (list str)) (w rest acc : str) :
  forallb p w = true -> (forall g, k g rest <> None) ->
  star_group p k acc (w ++ rest) <> None.
Proof.
  intros Hw Hk. revert acc. induction w as [|c w IH]; intros acc; simpl in *.
  - destruct rest as [|c rest]; simpl; [apply Hk|].
    destruct (p c); [|apply Hk].
    destruct (star_group p k (acc ++ [c]) rest); [discriminate|apply Hk].
  - apply andb_true_iff in Hw. destruct Hw as (-> & Hw).
    specialize (IH Hw (acc ++ [c])).
    now destruct (star_group p k (acc ++ [c]) (w ++ rest)).
Qed.

Lemma match_lit (l : str) (r : pattern) (rest : str) :
  match_here (lit l ++ r) (l ++ rest) = match_here r rest.
Proof.
  induction l as [|c l IH]; simpl; [reflexivity|].
  now rewrite Ascii.eqb_refl.
Qed.

Lemma match_lit_sound (l : str) (r : pattern) (s : str) (m : list str) :
  match_here (lit l ++ r) s = Some m ->
  exists rest, s = l ++ rest /\ match_here r rest = Some m.
Proof.
  revert s. induction l as [|c l IH]; intros s; simpl.
  - intros H. now exists s.
  - destruct s as [|x s]; [discriminate|].
    destruct (Ascii.eqb_spec c x) as [<-|_]; [|discriminate].
    intros H. destruct (IH _ H) as (rest & -> & Hr). now exists rest.
Qed.

Lemma search_sound (r : pattern) (s : str) (m : list str) :
  search r s = Some m ->
  exists pre rest,
    s = pre ++ rest /\ match_here r rest = Some m
    /\ forall a b, pre = a ++ b -> b <> [] -> match_here r (b ++ rest) = None.
Proof.
  induction s as [|c s IH]; simpl.
  - destruct (match_here r []) eqn:E; [|discriminate].
    intros [= ->]. exists [], []. repeat split; [assumption|].
    intros [|? ?] [|? ?]; simpl; congruence.
  - destruct (match_here r (c :: s)) as [g|] eqn:E.
    + intros [= ->]. exists [], (c :: s). repeat split; [assumption|].
      intros [|? ?] [|? ?]; simpl; congruence.
    + intros H. destruct (IH H) as (pre & rest & -> & Hm & Hleft).
      exists (c :: pre), rest. repeat split; [assumption|].
      intros [|x a] b Hab Hb; simpl in Hab.
      * subst b. exact E.
      * injection Hab as -> ->. now apply (Hleft a b).
Qed.

Lemma search_complete (r : pattern) (pre rest : str) :
  match_here r rest <> None -> search r (pre ++ rest) <> None.
Proof.
  intros H. induction pre as [|c pre IH]; simpl.
  - destruct rest; simpl; now destruct (match_here r _).
  - now destruct (match_here r (c :: pre ++ rest)).
Qed.

End ReFacts.

Module RescueFacts.
Import Re ReFacts.

(** A run of [p] ended by a character outside [p] splits in one way. *)
Lemma run_unique (p : ascii -> bool) (w w' : str) (c c' : ascii)
  (r r' : str) :
  forallb p w = true -> forallb p w' = true -> p c = false -> p c' = false ->
  w ++ c :: r = w' ++ c' :: r' -> w = w' /\ c = c' /\ r = r'.
Proof.
  revert w'. induction w as [|x w IH]; intros [|y w']; simpl;
    intros Hw Hw' Hc Hc' [= E1 E2].
  - now subst.
  - subst. apply andb_true_iff in Hw'. destruct Hw'; congruence.
  - subst. apply andb_true_iff in Hw. destruct Hw; congruence.
  - subst. apply andb_true_iff in Hw, Hw'.
    destruct Hw as (_ & Hw), Hw' as (_ & Hw').
    destruct (IH w' Hw Hw' Hc Hc' E2) as (-> & -> & ->). now repeat split.
Qed.

Lemma not_dq_Forall (g : str) :
  forallb not_dq g = true <-> Forall (fun c => c <> dq) g.
Proof.
  rewrite forallb_forall, Forall_forall. unfold not_dq.
  split; intros H c Hc; specialize (H c Hc).
  - intros ->. now rewrite Ascii.eqb_refl in H.
  - now destruct (Ascii.eqb_spec c dq).
Qed.

Lemma match_next_thought_sound (rest : str) (m : list str) :
  match_here next_thought_re rest = Some m ->
  exists g, m = [g] /\ next_thought_at [] rest g.
Proof.
  unfold next_thought_re. intros H.
  apply match_lit_sound in H. destruct H as (r0 & -> & H).
  cbn [match_here] in H.
  apply star_sound in H. destruct H as (w1 & r1 & -> & Hw1 & H).
  destruct r1 as [|c1 r1]; [discriminate|].
  unfold chr at 1 in H.
  destruct (Ascii.eqb_spec ":"%char c1) as [<-|_]; [|discriminate].
  apply star_sound in H. destruct H as (w2 & r2 & -> & Hw2 & H).
  destruct r2 as [|c2 r2]; [discriminate|].
  unfold chr at 1 in H.
  destruct (Ascii.eqb_spec dq c2) as [<-|_]; [|discriminate].
  destruct r2 as [|c r2]; [discriminate|].
  destruct (negb (Ascii.eqb c dq)) eqn:Hc; [|discriminate].
  apply star_group_sound in H. destruct H as (w & r3 & -> & Hw & H).
  destruct r3 as [|c3 r3]; [discriminate|].
  unfold chr in H.
  destruct (Ascii.eqb_spec dq c3) as [<-|_]; [|discriminate].
  injection H as <-. exists (c :: w). split; [reflexivity|].
  exists w1, w2, r3. repeat split; try assumption; try discriminate.
  apply not_dq_Forall. simpl. unfold not_dq at 1. now rewrite Hc.
Qed.

Lemma match_next_thought_complete (rest g : str) :
  next_thought_at [] rest g -> match_here next_thought_re rest <> None.
Proof.
  intros (w1 & w2 & post & -> & Hw1 & Hw2 & Hg & Hq).
  unfold next_thought_re. rewrite app_nil_l, match_lit.
  cbn [match_here]. apply star_complete; [assumption|].
  unfold chr at 1. rewrite Ascii.eqb_refl.
  apply star_complete; [assumption|].
  unfold chr at 1. rewrite Ascii.eqb_refl.
  destruct g as [|c g]; [congruence|]. cbn [app].
  apply not_dq_Forall in Hq. simpl in Hq. apply andb_true_iff in Hq.
  destruct Hq as (Hc & Hq). unfold not_dq in Hc. rewrite Hc.
  apply star_group_complete; [exact Hq|].
  intros acc. unfold chr. now rewrite Ascii.eqb_refl.
Qed.

Lemma next_thought_at_shift (pre rest g : str) :
  next_thought_at pre (pre ++ rest) g <-> next_thought_at [] rest g.
Proof.
  split; intros (w1 & w2 & post & E & H); exists w1, w2, post;
    (split; [|exact H]).
  - now apply app_inv_head in E.
  - cbn [app] in E |- *. now rewrite E.
Qed.

Lemma next_thought_at_prefix (pre text g : str) :
  next_thought_at pre text g -> exists rest, text = pre ++ rest.
Proof. intros (w1 & w2 & post & -> & _). eauto. Qed.

(** At one position the pattern matches in one way. *)
Lemma next_thought_at_unique (pre text g g' : str) :
  next_thought_at pre text g -> next_thought_at pre text g' -> g = g'.
Proof.
  intros (w1 & w2 & post & -> & Hw1 & Hw2 & _ & Hq)
         (w1' & w2' & post' & E & Hw1' & Hw2' & _ & Hq').
  apply app_inv_head in E. apply app_inv_head in E.
  apply (run_unique isspace) in E; try assumption; try reflexivity.
  destruct E as (_ & _ & E).
  apply (run_unique isspace) in E; try assumption; try reflexivity.
  destruct E as (_ & _ & E).
  apply (run_unique not_dq) in E;
    try (now apply not_dq_Forall); try reflexivity.
  now destruct E.
Qed.

(** Two prefixes of one text: the shorter is a prefix of the longer. *)
Lemma prefix_of_prefix (a b r r' : str) :
  a ++ r = b ++ r' -> (length a < length b)%nat ->
  exists x, x <> [] /\ b = a ++ x /\ r = x ++ r'.
Proof.
  revert b. induction a as [|c a IH]; intros [|d b]; simpl; intros E Hl;
    try lia.
  - exists (d :: b). now repeat split.
  - injection E as -> E. destruct (IH b E) as (x & Hx & -> & ->); [lia|].
    now exists x.
Qed.

(** [re.search] with the pattern of the third stage: the value of the
    leftmost occurrence, or nothing when there is no occurrence. *)
Lemma search_next_thought (text : str) (m : list str) :
  search next_thought_re text = Some m
  <-> exists g, m = [g] /\ first_next_thought text g.
Proof.
  unfold first_next_thought. split.
  - intros H. apply search_sound in H.
    destruct H as (pre & rest & -> & Hm & Hleft).
    apply match_next_thought_sound in Hm. destruct Hm as (g & -> & Hg).
    exists g. split; [reflexivity|]. exists pre.
    split; [now apply next_thought_at_shift|].
    intros pre' g' H'. destruct (Nat.le_gt_cases (length pre) (length pre'))
      as [|Hlt]; [assumption|exfalso].
    destruct (next_thought_at_prefix _ _ _ H') as (rest' & E).
    symmetry in E. destruct (prefix_of_prefix _ _ _ _ E Hlt)
      as (x & Hx & -> & ->).
    apply (match_next_thought_complete (x ++ rest) g');
      [|now apply (Hleft pre' x)].
    apply (next_thought_at_shift pre'). now rewrite <- app_assoc in H'.
  - intros (g & -> & pre & Hg & Hmin).
    destruct (next_thought_at_prefix _ _ _ Hg) as (rest & ->).
    destruct (search next_thought_re (pre ++ rest)) as [m|] eqn:E.
    + apply search_sound in E.
      destruct E as (pre0 & rest0 & E & Hm & Hleft).
      apply match_next_thought_sound in Hm. destruct Hm as (g0 & -> & Hg0).
      apply (next_thought_at_shift pre0) in Hg0. rewrite <- E in Hg0.
      assert (Hle := Hmin _ _ Hg0).
      destruct (Nat.eq_dec (length pre) (length pre0)) as [Heq|Hne].
      * assert (pre = pre0 /\ rest = rest0) as (<- & <-).
        { clear -E Heq. revert pre0 E Heq.
          induction pre as [|c pre IH]; intros [|d pre0]; simpl;
            intros E Heq; try discriminate; [now split|].
          injection E as -> E. destruct (IH pre0 E) as (-> & ->); [lia|].
          now split. }
        now rewrite (next_thought_at_unique _ _ _ _ Hg Hg0).
      * exfalso. destruct (prefix_of_prefix pre pre0 rest rest0 E)
          as (x & Hx & -> & ->); [lia|].
        apply (match_next_thought_complete (x ++ rest0) g);
          [|now apply (Hleft pre x)].
        now apply (next_thought_at_shift pre).
    + exfalso. apply (search_complete next_thought_re pre rest); [|exact E].
      apply (match_next_thought_complete rest g).
      now apply (next_thought_at_shift pre).
Qed.

End RescueFacts.

(* ================================================================== *)
(** * The three stages of the extraction *)

Section Stages.

Variable loads : str -> option json.

Lemma first_group_extracted (text c : str) :
  first_group text c <-> _extract_json_object text = Some c.
Proof.
  split.
  - intros (pre & body & post & -> & Hpre & Hbody & ->).
    now apply extract_complete.
  - apply extract_sound.
Qed.

Lemma parse_candidate_some (text : str) (v : json) :
  parse_candidate loads text = Some v
  <-> exists c, first_group text c /\ loads c = Some v.
Proof.
  unfold parse_candidate. split.
  - destruct (_extract_json_object text) as [c|] eqn:E; [|discriminate].
    destruct (nonempty c); [|discriminate].
    intros H. exists c. split; [now apply first_group_extracted|assumption].
  - intros (c & Hc & Hv). apply first_group_extracted in Hc as Hx.
    rewrite Hx. destruct Hc as (? & ? & ? & _ & _ & _ & ->). exact Hv.
Qed.

Lemma parse_candidate_none (text : str) :
  parse_candidate loads text = None
  <-> forall c, first_group text c -> loads c = None.
Proof.
  split.
  - intros H c Hc. destruct (loads c) as [v|] eqn:E; [|reflexivity].
    rewrite <- H. symmetry. apply parse_candidate_some. eauto.
  - intros H. destruct (parse_candidate loads text) as [v|] eqn:E;
      [|reflexivity].
    apply parse_candidate_some in E. destruct E as (c & Hc & Hv).
    now rewrite (H c Hc) in Hv.
Qed.

Lemma search_none (text : str) :
  Re.search next_thought_re text = None
  <-> forall pre g, ~ next_thought_at pre text g.
Proof.
  split.
  - intros H pre g Hg.
    destruct (RescueFacts.next_thought_at_prefix _ _ _ Hg) as (rest & ->).
    apply (ReFacts.search_complete next_thought_re pre rest); [|exact H].
    apply (RescueFacts.match_next_thought_complete rest g).
    now apply (RescueFacts.next_thought_at_shift pre).
  - intros H. destruct (Re.search next_thought_re text) as [m|] eqn:E;
      [|reflexivity].
    apply RescueFacts.search_next_thought in E.
    destruct E as (g & _ & pre & Hg & _). now apply H in Hg.
Qed.

(** [parse_model_json] returns [v] exactly when the raw text parses as
    [v]; or it does not parse, and its first balanced group parses as
    [v]; or neither parses, and [v] is the rescue payload built from the
    value of the leftmost [next_thought] occurrence. *)
Theorem parse_returns_first_reading (text : str) (v : json) :
  parse_model_json loads text = Ok v
  <-> loads text = Some v
      \/ (loads text = None
          /\ exists c, first_group text c /\ loads c = Some v)
      \/ (loads text = None
          /\ (forall c, first_group text c -> loads c = None)
          /\ exists g, first_next_thought text g /\ v = rescue_payload g).
Proof.
  unfold parse_model_json. split.
  - destruct (loads text) as [v0|] eqn:E1; [intros [= ->]; now left|].
    destruct (parse_candidate loads text) as [v1|] eqn:E2.
    + intros [= ->]. right. left. split; [reflexivity|].
      now apply parse_candidate_some.
    + destruct (Re.search next_thought_re text) as [m|] eqn:E3;
        [|discriminate].
      intros [= <-]. right. right. split; [reflexivity|].
      split; [now apply parse_candidate_none|].
      apply RescueFacts.search_next_thought in E3.
      destruct E3 as (g & -> & Hg). now exists g.
  - intros [H|[(H1 & H2)|(H1 & H2 & g & Hg & ->)]].
    + now rewrite H.
    + apply parse_candidate_some in H2. now rewrite H1, H2.
    + apply parse_candidate_none in H2. rewrite H1, H2.
      assert (H3 : Re.search next_thought_re text = Some [g])
        by (apply RescueFacts.search_next_thought; eauto).
      now rewrite H3.
Qed.

(** [parse_model_json] raises exactly when no stage has a reading: the
    raw text does not parse, its first balanced group (if it has one)
    does not parse, and it holds no [next_thought] occurrence.  What it
    raises is then a [ValueError] that quotes the first 500 characters of
    the raw text. *)
Theorem parse_fails_without_reading (text : str) (e : exc) :
  parse_model_json loads text = Raise e
  <-> loads text = None
      /\ (forall c, first_group text c -> loads c = None)
      /\ (forall pre g, ~ next_thought_at pre text g)
      /\ e = ValueError
               (py "Model did not return valid JSON." ++ [nl] ++ py "Raw:"
                ++ [nl] ++ firstn 500 text ++ py "...").
Proof.
  unfold parse_model_json.
  replace (firstn 500 text) with (slice_to text 500)
    by (rewrite slice_to_firstn by lia; reflexivity).
  split.
  - destruct (loads text) as [v0|] eqn:E1; [discriminate|].
    destruct (parse_candidate loads text) as [v1|] eqn:E2; [discriminate|].
    destruct (Re.search next_thought_re text) as [m|] eqn:E3;
      [discriminate|].
    intros [= <-]. split; [reflexivity|].
    split; [now apply parse_candidate_none|].
    split; [now apply search_none|reflexivity].
  - intros (H1 & H2 & H3 & ->).
    apply parse_candidate_none in H2. apply search_none in H3.
    now rewrite H1, H2, H3.
Qed.

End Stages.

(** [_extract_json_object] returns a candidate exactly when the raw text
    has an opening brace whose matching closing brace exists, the braces
    between them properly nested; the candidate is then that piece of the
    raw text, from the first opening brace of the text to the brace that
    closes it.  In every other case, a text with no opening brace or one
    whose first brace is never closed, it returns [None]. *)
Theorem extract_returns_first_group (text : str) :
  (forall c, _extract_json_object text = Some c <-> first_group text c)
  /\ (_extract_json_object text = None <-> forall c, ~ first_group text c).
Proof.
  split.
  - intros c. symmetry. apply first_group_extracted.
  - split.
    + intros H c Hc. apply first_group_extracted in Hc. congruence.
    + intros H. destruct (_extract_json_object text) as [c|] eqn:E;
        [|reflexivity].
      apply first_group_extracted in E. now apply H in E.
Qed.

(** The pattern of the third stage is found exactly in the texts that
    hold an occurrence of it, and the group of the match is the value of
    the leftmost occurrence. *)
Theorem rescue_pattern_finds_first_value (text : str) :
  (forall m,
     Re.search next_thought_re text = Some m
     <-> first_next_thought text (Re.group1 m) /\ length m = 1%nat)
  /\ (Re.search next_thought_re text = None
      <-> forall pre g, ~ next_thought_at pre text g).
Proof.
  split; [|apply search_none].
  intros m. rewrite RescueFacts.search_next_thought. split.
  - intros (g & -> & Hg). now split.
  - intros (Hg & Hl). destruct m as [|g [|? ?]]; try discriminate.
    exists g. now split.
Qed.

(* ================================================================== *)
(** * Compaction and rendering of the Notes *)

Section NotesFacts.

Variable repr : json -> str.

Lemma category_items_compact (notes : dict) (n : Z) (k : str) :
  0 <= n -> In k NOTE_KEYS ->
  category_items repr (compact_notes repr notes n) k
  = firstn (Z.to_nat n) (category_items repr notes k).
Proof.
  intros Hn Hk. rewrite compact_notes_eq by assumption.
  unfold category_items at 1.
  simpl in Hk.
  destruct Hk as [<- | [<- | [<- | [<- | []]]]]; reflexivity.
Qed.

(** Compacting twice is compacting once with the smaller bound; with one
    bound, compaction is idempotent. *)
Theorem compact_notes_twice (notes : dict) (n m : Z) :
  0 <= n -> 0 <= m ->
  compact_notes repr (compact_notes repr notes n) m
  = compact_notes repr notes (Z.min n m)
  /\ compact_notes repr (compact_notes repr notes n) n
     = compact_notes repr notes n.
Proof.
  assert (H : forall n m, 0 <= n -> 0 <= m ->
            compact_notes repr (compact_notes repr notes n) m
            = compact_notes repr notes (Z.min n m)).
  { clear n m. intros n m Hn Hm.
    rewrite (compact_notes_eq repr (compact_notes repr notes n) m)
      by assumption.
    rewrite (compact_notes_eq repr notes (Z.min n m)) by lia.
    apply map_ext_in. intros k Hk.
    rewrite category_items_compact by assumption.
    rewrite firstn_firstn. do 3 f_equal. lia. }
  intros Hn Hm. split; [now apply H|].
  rewrite H by assumption. now rewrite Z.min_id.
Qed.

End NotesFacts.

Section RenderFacts.

Variable repr : json -> str.

Lemma strings_of_map (parts : list str) :
  strings_of (map JStr parts) = Ok parts.
Proof. induction parts as [|p parts IH]; simpl; [|rewrite IH]; reflexivity. Qed.

Lemma strings_of_eq (l : list json) :
  strings_of l = if forallb is_str l then Ok (texts l) else Raise TypeError.
Proof.
  induction l as [|v l IH]; [reflexivity|].
  destruct v; try reflexivity. simpl. rewrite IH.
  now destruct (forallb is_str l).
Qed.

Lemma texts_map (parts : list str) : texts (map JStr parts) = parts.
Proof.
  induction parts as [|p parts IH]; [reflexivity|]. simpl. now rewrite IH.
Qed.

Lemma is_str_map (parts : list str) : forallb is_str (map JStr parts) = true.
Proof. induction parts as [|p parts IH]; [reflexivity|exact IH]. Qed.

Lemma map_texts (l : list json) :
  forallb is_str l = true -> l = map JStr (texts l).
Proof.
  induction l as [|v l IH]; [reflexivity|].
  destruct v; try discriminate. simpl. intros H. now rewrite <- IH.
Qed.

Lemma join_items_list (l : list json) :
  join_items (JList l)
  = match strings_of l with
    | Ok parts => Ok (join (py ", ") parts)
    | Raise e => Raise e
    end.
Proof. now destruct l. Qed.

Lemma get_compact (notes : dict) (n : Z) (k : str) :
  0 <= n -> In k NOTE_KEYS ->
  get (compact_notes repr notes n) k (JList [])
  = JList (kept_items repr notes n k).
Proof.
  intros Hn Hk. rewrite compact_notes_eq by assumption. simpl in Hk.
  destruct Hk as [<- | [<- | [<- | [<- | []]]]]; reflexivity.
Qed.

(** What rendering compacted Notes comes to. *)
Lemma render_compacted_eq (notes : dict) (n : Z) :
  0 <= n ->
  let kept := kept_items repr notes n in
  render_prior (compact_notes repr notes n)
  = if forallb (fun k => forallb is_str (kept k)) NOTE_KEYS
    then Ok (prior_block (texts (kept (py "premises")))
               (texts (kept (py "hypotheses")))
               (texts (kept (py "uncertainties")))
               (texts (kept (py "plan_next"))))
    else Raise TypeError.
Proof.
  intros Hn kept. unfold render_prior.
  rewrite !get_compact by (assumption || (simpl; tauto)).
  rewrite !join_items_list, !strings_of_eq. fold kept.
  unfold NOTE_KEYS. cbn [forallb].
  destruct (forallb is_str (kept (py "premises"))); [|reflexivity].
  destruct (forallb is_str (kept (py "hypotheses"))); [|reflexivity].
  destruct (forallb is_str (kept (py "uncertainties"))); [|reflexivity].
  destruct (forallb is_str (kept (py "plan_next"))); reflexivity.
Qed.

Lemma all_kept_strings (notes : dict) (n : Z) :
  forallb (fun k => forallb is_str (kept_items repr notes n k)) NOTE_KEYS
  = true
  <-> forall k, In k NOTE_KEYS ->
                forallb is_str (kept_items repr notes n k) = true.
Proof. apply forallb_forall. Qed.

Lemma render_compacted_ok (notes : dict) (n : Z) :
  0 <= n ->
  (forall k, In k NOTE_KEYS ->
             forallb is_str (kept_items repr notes n k) = true) ->
  exists text, render_prior (compact_notes repr notes n) = Ok text.
Proof.
  intros Hn Hs. rewrite render_compacted_eq by assumption. cbv zeta.
  apply all_kept_strings in Hs. rewrite Hs. eauto.
Qed.

Lemma render_compacted_raises (notes : dict) (n : Z) (k : str) :
  0 <= n -> In k NOTE_KEYS ->
  forallb is_str (kept_items repr notes n k) = false ->
  render_prior (compact_notes repr notes n) = Raise TypeError.
Proof.
  intros Hn Hk Hs. rewrite render_compacted_eq by assumption. cbv zeta.
  destruct (forallb _ NOTE_KEYS) eqn:E; [|reflexivity].
  rewrite all_kept_strings in E. now rewrite (E k Hk) in Hs.
Qed.

(** Rendering compacted Notes: the block lists what was kept of every
    category, joined by a comma and a space, when everything kept is a
    string; and it raises a [TypeError] exactly when something kept is
    not one. *)
Theorem render_prior_of_compacted (notes : dict) (n : Z) :
  0 <= n ->
  let kept := kept_items repr notes n in
  (forall text,
     render_prior (compact_notes repr notes n) = Ok text
     <-> exists p h u q,
           kept (py "premises") = map JStr p
           /\ kept (py "hypotheses") = map JStr h
           /\ kept (py "uncertainties") = map JStr u
           /\ kept (py "plan_next") = map JStr q
           /\ text = prior_block p h u q)
  /\ (forall e,
        render_prior (compact_notes repr notes n) = Raise e
        <-> e = TypeError
            /\ exists k, In k NOTE_KEYS /\ forallb is_str (kept k) = false).
Proof.
  intros Hn kept. rewrite render_compacted_eq by assumption. cbv zeta.
  fold kept.
  destruct (forallb _ NOTE_KEYS) eqn:E.
  - pose proof (proj1 (all_kept_strings notes n) E) as Hall. fold kept in Hall.
    split.
    + intros text. split.
      * intros [= <-]. do 4 eexists.
        repeat split; apply map_texts, Hall; unfold NOTE_KEYS; cbn [In];
          tauto.
      * intros (p & h & u & q & -> & -> & -> & -> & ->).
        now rewrite !texts_map.
    + intros e. split; [discriminate|].
      intros (_ & k & Hk & Hf). now rewrite (Hall k Hk) in Hf.
  - split.
    + intros text. split; [discriminate|].
      intros (p & h & u & q & Hp & Hh & Hu & Hq & _).
      unfold NOTE_KEYS in E. cbn [forallb] in E. fold kept in E.
      now rewrite Hp, Hh, Hu, Hq, !is_str_map in E.
    + intros e. split.
      * intros [= <-]. split; [reflexivity|].
        destruct (forallb_forall
                    (fun k => forallb is_str (kept k)) NOTE_KEYS) as [_ H].
        destruct (existsb (fun k => negb (forallb is_str (kept k))) NOTE_KEYS)
          eqn:Ex.
        -- apply existsb_exists in Ex. destruct Ex as (k & Hk & Hf).
           exists k. split; [assumption|]. now apply negb_true_iff in Hf.
        -- exfalso. fold kept in E. rewrite H in E; [discriminate|].
           intros k Hk.
           destruct (forallb is_str (kept k)) eqn:Ek; [reflexivity|].
           assert (Hc : existsb (fun k => negb (forallb is_str (kept k)))
                          NOTE_KEYS = true)
             by (apply existsb_exists; exists k; split;
                 [assumption|now rewrite Ek]).
           congruence.
      * now intros (-> & _).
Qed.

End RenderFacts.

(* ================================================================== *)
(** * The console summary *)

Lemma replace_char_length (old new : ascii) (s : str) :
  length (replace_char old [new] s) = length s.
Proof.
  unfold replace_char. induction s as [|c s IH]; simpl; [reflexivity|].
  rewrite length_app, IH. now destruct (Ascii.eqb c old).
Qed.

Lemma replace_char_gone (old new : ascii) (s : str) :
  new <> old -> ~ In old (replace_char old [new] s).
Proof.
  intros Hne Hin. unfold replace_char in Hin. apply in_flat_map in Hin.
  destruct Hin as (c & _ & Hc).
  destruct (Ascii.eqb c old) eqn:E; destruct Hc as [Hc|[]].
  - congruence.
  - subst c. now rewrite Ascii.eqb_refl in E.
Qed.

(** The console summary of the batch and refinement loops is one line of
    at most 160 characters; computing it raises exactly when the payload
    is a mapping whose [answer] is true and no string: an
    [AttributeError] for a list, a [TypeError] for anything else. *)
Theorem console_summary_is_one_short_line (parsed : json) :
  (forall s,
     answer_summary parsed = Ok s -> (length s <= 160)%nat /\ ~ In nl s)
  /\ (forall e,
        answer_summary parsed = Raise e
        <-> exists d v,
              parsed = JDict d /\ lookup d (py "answer") = Some v
              /\ truthy v = true /\ is_str v = false
              /\ e = match v with
                     | JList _ => AttributeError
                     | _ => TypeError
                     end).
Proof.
  assert (Hok : forall s0 s,
            Ok (replace_char nl (py " ") (slice_to s0 160)) = Ok s ->
            (length s <= 160)%nat /\ ~ In nl s).
  { intros s0 s [= <-]. split.
    - change (py " ") with [" "%char]. rewrite replace_char_length.
      rewrite slice_to_firstn by lia. apply firstn_le_length.
    - apply replace_char_gone. discriminate. }
  unfold answer_summary. cbv zeta. split.
  - intros s. destruct parsed; try apply Hok.
    destruct (truthy (get d (py "answer") (JStr []))); [|apply Hok].
    destruct (get d (py "answer") (JStr [])); try discriminate. apply Hok.
  - intros e. split.
    + destruct parsed; try discriminate.
      unfold get. destruct (lookup d (py "answer")) as [v|] eqn:E;
        [|discriminate].
      destruct (truthy v) eqn:Ht; [|discriminate].
      destruct v; try discriminate; intros [= <-]; exists d; eexists;
        repeat split; try eassumption; reflexivity.
    + intros (d & v & -> & Hl & Ht & Hs & ->). unfold get. rewrite Hl, Ht.
      destruct v; try reflexivity. discriminate.
Qed.

(* ================================================================== *)
(** * The books of a run *)

Lemma grown_refl (w : world) : grown w w 0 0.
Proof. exists [], []. now rewrite !app_nil_r. Qed.

Lemma grown_sent (w0 w : world) (i j : nat) (m : list message) :
  grown w0 w i j -> grown w0 (sent w m) i (S j).
Proof.
  intros (recs & reqs & H1 & H2 & L1 & L2). exists recs, (reqs ++ [m]).
  simpl. rewrite H2, app_assoc, length_app. simpl. repeat split; try lia.
  assumption.
Qed.

Lemma grown_logged (w0 w : world) (i j : nat) (m : list message) (r : json) :
  grown w0 w i j -> grown w0 (logged w m r) (S i) (S j).
Proof.
  intros (recs & reqs & H1 & H2 & L1 & L2).
  exists (recs ++ [r]), (reqs ++ [m]).
  simpl. rewrite H1, H2, !app_assoc, !length_app. simpl.
  repeat split; lia.
Qed.

Lemma for_range_accounted {St} (body : nat -> St -> io St) :
  (forall k st w o w', body k st w = (o, w') -> step_accounted w o w') ->
  forall n start st w0 w o w',
    grown w0 w start start ->
    for_range body start n st w = (o, w') ->
    accounted (start + n) w0 o w'.
Proof.
  intros Hbody. induction n as [|n IH]; intros start st w0 w o w' Hg; simpl.
  - intros [= <- <-]. simpl. now rewrite Nat.add_0_r.
  - unfold bind. destruct (body start st w) as [o1 w1] eqn:E.
    apply Hbody in E. destruct o1 as [st1|code|e]; simpl in E.
    + destruct E as (m & r & ->). intros H.
      rewrite <- Nat.add_succ_comm.
      apply (IH (S start) st1 w0 (logged w m r)); [|assumption].
      now apply grown_logged.
    + destruct E as (-> & m & ->). intros [= <- <-]. simpl.
      split; [reflexivity|]. exists start. split; [lia|].
      now apply grown_sent.
    + destruct E as [->|[(m & ->)|(m & r & ->)]]; intros [= <- <-]; simpl.
      * exists start, start. repeat split; try lia. assumption.
      * exists start, (S start). repeat split; try lia.
        now apply grown_sent.
      * exists (S start), (S start). repeat split; try lia.
        now apply grown_logged.
Qed.

Lemma strings_of_raises (l : list json) (e : exc) :
  strings_of l = Raise e -> e = TypeError.
Proof.
  induction l as [|v l IH]; simpl; [discriminate|].
  destruct v; try (now intros [= <-]).
  destruct (strings_of l); [discriminate|]. intros [= <-]. now apply IH.
Qed.

Lemma join_items_raises (v : json) (e : exc) :
  join_items v = Raise e -> e = TypeError.
Proof.
  unfold join_items. destruct (truthy v); [|discriminate].
  destruct v; try (now intros [= <-]); try discriminate.
  destruct (strings_of l) eqn:E; [discriminate|].
  intros [= <-]. now apply strings_of_raises in E.
Qed.

Lemma render_prior_raises (notes : dict) (e : exc) :
  render_prior notes = Raise e -> e = TypeError.
Proof.
  unfold render_prior.
  repeat match goal with
         | |- context [join_items ?v] =>
             let E := fresh "E" in
             destruct (join_items v) eqn:E;
             [|intros [= <-]; now apply join_items_raises in E]
         end.
  discriminate.
Qed.

Lemma answer_summary_raises (parsed : json) (e : exc) :
  answer_summary parsed = Raise e -> e = TypeError \/ e = AttributeError.
Proof.
  unfold answer_summary. cbv zeta.
  destruct (if truthy _ then _ else _); intros [= <-]; auto.
Qed.

Section Books.

Variable P : platform.
Variable a : arguments.

Lemma baseline_step (k : nat) (u : unit) (w : world) (o : outcome unit)
  (w' : world) :
  baseline_body P a k u w = (o, w') -> step_accounted w o w'.
Proof.
  destruct u. rewrite baseline_body_run.
  destruct (endpoint P _ _) as [content|]; cbn zeta.
  - destruct (answer_summary _) eqn:E; intros [= <- <-]; simpl; eauto 6.
  - intros [= <- <-]. simpl. eauto.
Qed.

Lemma loop_step (perturb_at : option Z) (perturb_text : str) (k : nat)
  (st : loop_state) (w : world) (o : outcome loop_state) (w' : world) :
  loop_body P a perturb_at perturb_text k st w = (o, w') ->
  step_accounted w o w'.
Proof.
  rewrite loop_body_run. cbn zeta. unfold loop_messages.
  destruct (render_prior (l_notes st)) as [prior|e] eqn:Er.
  - destruct (endpoint P _ _) as [content|].
    + destruct (answer_summary _) eqn:E; intros [= <- <-]; simpl; eauto 6.
    + intros [= <- <-]. simpl. eauto.
  - intros [= <- <-]. simpl. auto.
Qed.

Lemma thoughts_step (history_window : Z) (perturb_at : option Z)
  (perturb_text : str) (k : nat) (st : thoughts_state) (w : world)
  (o : outcome thoughts_state) (w' : world) :
  thoughts_body P a history_window perturb_at perturb_text k st w = (o, w') ->
  step_accounted w o w'.
Proof.
  rewrite thoughts_body_run. cbn zeta.
  destruct (endpoint P _ _) as [content|]; intros [= <- <-]; simpl; eauto.
Qed.

Lemma accounted_unit {A} (n : nat) (w0 : world) (o : outcome A) (w : world) :
  accounted n w0 o w ->
  accounted n w0
    (match o with
     | Done _ => Done tt
     | Exit code => Exit code
     | Uncaught e => Uncaught e
     end) w.
Proof. now destruct o. Qed.

Lemma baseline_accounted (w0 : world) (samples : Z) :
  accounted (Z.to_nat samples) w0 (fst (baseline_run P a samples w0))
    (snd (baseline_run P a samples w0)).
Proof.
  unfold baseline_run.
  destruct (for_range _ _ _ _ _) as [o w'] eqn:E. simpl.
  apply (for_range_accounted _ (baseline_step)) with (w0 := w0) in E;
    [exact E|apply grown_refl].
Qed.

Lemma loop_accounted (w0 : world) (iterations : Z) (perturb_at : option Z)
  (perturb_text : str) :
  accounted (Z.to_nat iterations) w0
    (fst (loop_run P a iterations perturb_at perturb_text w0))
    (snd (loop_run P a iterations perturb_at perturb_text w0)).
Proof.
  destruct (loop_run_ends P a iterations perturb_at perturb_text w0)
    as (o & E & ->).
  apply accounted_unit.
  apply (for_range_accounted _ (loop_step perturb_at perturb_text))
    with (w0 := w0) in E; [exact E|apply grown_refl].
Qed.

Lemma thoughts_accounted (w0 : world) (total_thoughts history_window : Z)
  (perturb_at : option Z) (perturb_text : str) :
  accounted (Z.to_nat total_thoughts) w0
    (fst (thoughts_run P a total_thoughts history_window perturb_at
            perturb_text w0))
    (snd (thoughts_run P a total_thoughts history_window perturb_at
            perturb_text w0)).
Proof.
  destruct (thoughts_run_ends P a total_thoughts history_window perturb_at
              perturb_text w0) as (o & E & ->).
  apply accounted_unit.
  apply (for_range_accounted
           _ (thoughts_step history_window perturb_at perturb_text))
    with (w0 := w0) in E; [exact E|apply grown_refl].
Qed.

(** However a run ends, the log it started with is still there, and what
    it added is in order: a run that completes added a record for each of
    its [n] requests; one stopped by a transport failure exits with
    status 1, a request ahead of its records; one ended by an exception
    sent at most [n] requests and added a record for each of them, except
    perhaps the last. *)
Theorem runs_keep_their_books (w0 : world) :
  (forall samples,
     let final := baseline_run P a samples w0 in
     accounted (Z.to_nat samples) w0 (fst final) (snd final))
  /\ (forall iterations perturb_at perturb_text,
        let final := loop_run P a iterations perturb_at perturb_text w0 in
        accounted (Z.to_nat iterations) w0 (fst final) (snd final))
  /\ (forall total_thoughts history_window perturb_at perturb_text,
        let final := thoughts_run P a total_thoughts history_window
                       perturb_at perturb_text w0 in
        accounted (Z.to_nat total_thoughts) w0 (fst final) (snd final)).
Proof.
  split; [|split]; intros; cbv zeta.
  - apply baseline_accounted.
  - apply loop_accounted.
  - apply thoughts_accounted.
Qed.

End Books.

(* ================================================================== *)
(** * A run replayed from its log *)

Section Replay.

Context {St : Type}.
Variable body : nat -> St -> io St.
Variable w0 : world.
Variable state_of : nat -> list json -> St -> Prop.
Variable req_of : nat -> list json -> list message -> Prop.
Variable rec_of : nat -> list json -> json -> Prop.

Hypothesis step :
  forall k recs st w o w',
    state_of k recs st -> length recs = k ->
    length (requests w) = (length (requests w0) + k)%nat ->
    body k st w = (o, w') ->
    match o with
    | Done st' =>
        exists m r,
          w' = logged w m r /\ req_of k recs m /\ rec_of k recs r
          /\ state_of (S k) (recs ++ [r]) st'
    | _ =>
        w' = w
        \/ (exists m, w' = sent w m /\ req_of k recs m)
        \/ (exists m r, w' = logged w m r /\ req_of k recs m /\ rec_of k recs r)
    end.

Let full (k : nat) (st : St) (w : world) : Prop :=
  exists recs reqs,
    log w = log w0 ++ recs /\ requests w = requests w0 ++ reqs
    /\ length recs = k /\ length reqs = k
    /\ state_of k recs st
    /\ (forall i m, nth_error reqs i = Some m -> req_of i (firstn i recs) m)
    /\ (forall i r, nth_error recs i = Some r -> rec_of i (firstn i recs) r).

Lemma firstn_snoc_inside {A} (l : list A) (x : A) (i : nat) :
  (i <= length l)%nat -> firstn i (l ++ [x]) = firstn i l.
Proof.
  intros Hi. rewrite firstn_app.
  replace (i - length l)%nat with 0%nat by lia. simpl. apply app_nil_r.
Qed.

Lemma requests_snoc (recs : list json) (reqs : list (list message))
  (m : list message) :
  length reqs = length recs -> req_of (length recs) recs m ->
  (forall i m', nth_error reqs i = Some m' -> req_of i (firstn i recs) m') ->
  forall i m', nth_error (reqs ++ [m]) i = Some m' ->
               req_of i (firstn i recs) m'.
Proof.
  intros Hl Hm Hreqs i m' Hi. apply nth_error_snoc in Hi.
  destruct Hi as [Hi|[-> ->]]; [now apply Hreqs|].
  now rewrite Hl, firstn_all.
Qed.

Lemma records_snoc (recs : list json) (r : json)
  (P0 : nat -> list json -> json -> Prop) :
  P0 (length recs) recs r ->
  (forall i r', nth_error recs i = Some r' -> P0 i (firstn i recs) r') ->
  forall i r', nth_error (recs ++ [r]) i = Some r' ->
               P0 i (firstn i (recs ++ [r])) r'.
Proof.
  intros Hr Hrecs i r' Hi.
  assert (Hlt : (i < length (recs ++ [r]))%nat)
    by (apply nth_error_Some; congruence).
  rewrite length_app in Hlt. simpl in Hlt.
  rewrite firstn_snoc_inside by lia.
  apply nth_error_snoc in Hi.
  destruct Hi as [Hi|[-> ->]]; [now apply Hrecs|].
  now rewrite firstn_all.
Qed.

Lemma requests_keep (recs : list json) (r : json)
  (reqs : list (list message)) :
  (length reqs <= S (length recs))%nat ->
  (forall i m, nth_error reqs i = Some m -> req_of i (firstn i recs) m) ->
  forall i m, nth_error reqs i = Some m ->
              req_of i (firstn i (recs ++ [r])) m.
Proof.
  intros Hl Hreqs i m Hi.
  assert (Hlt : (i < length reqs)%nat) by (apply nth_error_Some; congruence).
  rewrite firstn_snoc_inside by lia. now apply Hreqs.
Qed.

Lemma replay_inv (n : nat) (st : St) (o : outcome St) (w' : world) :
  state_of 0%nat [] st ->
  for_range body 0 n st w0 = (o, w') ->
  replayed req_of rec_of w0 w'.
Proof.
  intros Hst Hrun.
  apply (for_range_inv body full
           (fun w => replayed req_of rec_of w0 w)) in Hrun.
  - destruct o as [st'| |]; try exact Hrun.
    destruct Hrun as (recs & reqs & H1 & H2 & _ & _ & _ & Hq & Hr).
    now exists recs, reqs.
  - intros k s w o1 w1 Hfull Hb.
    pose proof Hfull as (recs & reqs & H1 & H2 & L1 & L2 & Hs & Hq & Hr).
    assert (Hlen : length (requests w) = (length (requests w0) + k)%nat)
      by (rewrite H2, length_app; lia).
    specialize (step _ _ _ _ _ _ Hs L1 Hlen Hb).
    assert (Hlogged : forall m r, req_of k recs m -> rec_of k recs r ->
              replayed req_of rec_of w0 (logged w m r)).
    { intros m r Hm Hrec. exists (recs ++ [r]), (reqs ++ [m]). simpl.
      rewrite H1, H2, !app_assoc. repeat split.
      - apply requests_keep; [rewrite length_app; simpl; lia|].
        apply requests_snoc; [lia| now rewrite L1 |assumption].
      - apply records_snoc; [now rewrite L1|assumption]. }
    destruct o1 as [s1|code|e].
    + destruct step as (m & r & -> & Hm & Hrec & Hs1).
      exists (recs ++ [r]), (reqs ++ [m]). simpl.
      rewrite H1, H2, !app_assoc, !length_app. simpl.
      repeat split; try lia; try assumption.
      * apply requests_keep; [rewrite length_app; simpl; lia|].
        apply requests_snoc; [lia| now rewrite L1 |assumption].
      * apply records_snoc; [now rewrite L1|assumption].
    + destruct step as [->|[(m & -> & Hm)|(m & r & -> & Hm & Hrec)]].
      * now exists recs, reqs.
      * exists recs, (reqs ++ [m]). simpl. rewrite H2, app_assoc.
        repeat split; try assumption.
        apply requests_snoc; [lia| now rewrite L1 |assumption].
      * now apply Hlogged.
    + destruct step as [->|[(m & -> & Hm)|(m & r & -> & Hm & Hrec)]].
      * now exists recs, reqs.
      * exists recs, (reqs ++ [m]). simpl. rewrite H2, app_assoc.
        repeat split; try assumption.
        apply requests_snoc; [lia| now rewrite L1 |assumption].
      * now apply Hlogged.
  - exists [], []. rewrite !app_nil_r. repeat split; try assumption;
      intros [|i] x; discriminate.
Qed.

End Replay.

Section Replayed.

Variable P : platform.
Variable a : arguments.
Variable w0 : world.

(** A batch run carries nothing from one iteration to the next: every
    request is the same prompt, and every record is built from the reply
    to its own request alone. *)
Theorem batch_iterations_are_independent (samples : Z) :
  replayed
    (fun _ _ m => m = baseline_messages P a)
    (fun i _ r =>
       exists content,
         endpoint P (length (requests w0) + i) (baseline_messages P a)
         = Some content
         /\ r = baseline_record P a i (payload (json_loads P) (strip content)))
    w0 (snd (baseline_run P a samples w0)).
Proof.
  unfold baseline_run.
  destruct (for_range _ _ _ _ _) as [o w'] eqn:E. simpl.
  apply (replay_inv (baseline_body P a) w0 (fun _ _ _ => True))
    with (n := Z.to_nat samples) (st := tt) (o := o); [|exact I|exact E].
  intros k recs [] w o1 w1 _ _ Hlen. rewrite baseline_body_run, Hlen.
  destruct (endpoint P _ _) as [content|] eqn:Ee; cbn zeta.
  - destruct (answer_summary _); intros [= <- <-].
    + do 2 eexists. repeat split. eauto.
    + right. right. do 2 eexists. repeat split. eauto.
  - intros [= <- <-]. right. left. eauto.
Qed.

Variable perturb_at : option Z.
Variable perturb_text : str.

Lemma notes_after_snoc (recs : list json) (r : json) (d : dict) :
  field r (py "prior_notes") = Some (JDict d) ->
  notes_after (recs ++ [r]) = d.
Proof.
  intros H. unfold notes_after. rewrite rev_app_distr. cbn [rev app].
  now rewrite H.
Qed.

(** A refinement run can be replayed from its log: the prompt of every
    iteration is rendered from the [prior_notes] of the record before it
    (the empty Notes for the first), under the scenario in effect; and
    every record holds the payload of the reply to that prompt, with the
    Notes that payload leaves. *)
Theorem refinement_prompts_follow_the_log (iterations : Z) :
  replayed
    (fun k before m =>
       loop_messages P
         {| l_notes := notes_after before; l_scenario := scenario a |}
         (loop_scenario_at a perturb_at perturb_text k)
       = Ok m)
    (fun k before r =>
       exists m content,
         loop_messages P
           {| l_notes := notes_after before; l_scenario := scenario a |}
           (loop_scenario_at a perturb_at perturb_text k)
         = Ok m
         /\ endpoint P (length (requests w0) + k) m = Some content
         /\ let parsed := payload (json_loads P) (strip content) in
            r = loop_record P a k
                  (loop_scenario_at a perturb_at perturb_text k)
                  (loop_change_log perturb_at perturb_text k)
                  (loop_notes P parsed (notes_after before)) parsed)
    w0 (snd (loop_run P a iterations perturb_at perturb_text w0)).
Proof.
  destruct (loop_run_ends P a iterations perturb_at perturb_text w0)
    as (o & E & _).
  apply (replay_inv (loop_body P a perturb_at perturb_text) w0
           (fun k recs st =>
              l_scenario st
              = match k with
                | O => scenario a
                | S j => loop_scenario_at a perturb_at perturb_text j
                end
              /\ l_notes st = notes_after recs))
    with (n := Z.to_nat iterations) (st := loop_init a) (o := o);
    [|now split|exact E].
  intros k recs st w o1 w1 (Hsc & Hn) _ Hlen.
  rewrite loop_body_run. cbn zeta.
  rewrite (loop_scenario_eq a perturb_at perturb_text k st Hsc), Hlen.
  unfold loop_messages. cbn [l_notes]. rewrite Hn.
  destruct (render_prior (notes_after recs)) as [prior|e];
    [|intros [= <- <-]; now left].
  destruct (endpoint P _ _) as [content|] eqn:Ee.
  - destruct (answer_summary _); intros [= <- <-].
    + do 2 eexists. split; [reflexivity|]. split; [reflexivity|].
      split; [eauto|]. split; [reflexivity|].
      cbn [l_notes]. symmetry. now apply notes_after_snoc.
    + right. right. do 2 eexists. split; [reflexivity|].
      split; [reflexivity|]. eauto.
  - intros [= <- <-]. right. left. eauto.
Qed.

Lemma history_of_snoc (recs : list json) (r : json) :
  history_of (recs ++ [r]) = thoughts_append (history_of recs) (said r).
Proof.
  unfold history_of, thoughts_append. rewrite map_app, filter_app. simpl.
  destruct (nonempty (said r)); [reflexivity|apply app_nil_r].
Qed.

(** A stepwise run can be replayed from its log: the thought history
    shown at a step is made of the non-empty [next_thought] of the records
    before it, in their order; every record holds the [next_thought] of
    the reply to that prompt; and its [thoughts_so_far] counts the
    non-empty [next_thought] of the log up to and including itself. *)
Theorem stepwise_prompts_follow_the_log (total_thoughts history_window : Z) :
  replayed
    (fun k before m =>
       m = thoughts_messages P
             {| t_notes := notes_after before;
                t_thoughts := history_of before;
                t_scenario := scenario a |}
             (thoughts_scenario_at a perturb_at perturb_text k)
             history_window)
    (fun k before r =>
       exists content,
         endpoint P (length (requests w0) + k)
           (thoughts_messages P
              {| t_notes := notes_after before;
                 t_thoughts := history_of before;
                 t_scenario := scenario a |}
              (thoughts_scenario_at a perturb_at perturb_text k)
              history_window)
         = Some content
         /\ let parsed := payload (json_loads P) (strip content) in
            r = thoughts_record P a k
                  (thoughts_scenario_at a perturb_at perturb_text k)
                  (thoughts_change_log perturb_at perturb_text k)
                  (thoughts_notes P parsed (notes_after before))
                  (next_thought_of P parsed)
                  (thoughts_append (history_of before)
                     (next_thought_of P parsed))
                  history_window
            /\ field r (py "thoughts_so_far")
               = Some (JInt (len (history_of (before ++ [r])))))
    w0 (snd (thoughts_run P a total_thoughts history_window perturb_at
               perturb_text w0)).
Proof.
  destruct (thoughts_run_ends P a total_thoughts history_window perturb_at
              perturb_text w0) as (o & E & _).
  apply (replay_inv
           (thoughts_body P a history_window perturb_at perturb_text) w0
           (fun k recs st =>
              t_scenario st
              = match k with
                | O => scenario a
                | S j => thoughts_scenario_at a perturb_at perturb_text j
                end
              /\ t_notes st = notes_after recs
              /\ t_thoughts st = history_of recs))
    with (n := Z.to_nat total_thoughts) (st := thoughts_init a) (o := o);
    [|now repeat split|exact E].
  intros k recs st w o1 w1 (Hsc & Hn & Ht) _ Hlen.
  rewrite thoughts_body_run. cbn zeta.
  rewrite (thoughts_scenario_eq a perturb_at perturb_text k st Hsc), Hlen.
  unfold thoughts_messages. cbn [t_thoughts]. rewrite Hn, Ht.
  destruct (endpoint P _ _) as [content|] eqn:Ee; intros [= <- <-].
  - set (parsed := payload (json_loads P) (strip content)).
    set (r := thoughts_record P a k _ _ _ _ _ _).
    assert (Hsaid : said r = next_thought_of P parsed) by reflexivity.
    assert (Hhist : history_of (recs ++ [r])
                    = thoughts_append (history_of recs)
                        (next_thought_of P parsed))
      by (now rewrite history_of_snoc, Hsaid).
    eexists. exists r. split; [reflexivity|]. split; [reflexivity|].
    split.
    + exists content. split; [first [exact Ee|reflexivity]|]. cbv zeta.
      fold parsed. split; [reflexivity|]. now rewrite Hhist.
    + split; [reflexivity|]. cbn [t_notes t_thoughts].
      split; [|now rewrite Hhist].
      symmetry. now apply notes_after_snoc.
  - right. left. eauto.
Qed.

End Replayed.

(* ================================================================== *)
(** * The Notes a run carries *)

Lemma well_formed_empty : well_formed_notes empty_notes.
Proof.
  split; [reflexivity|]. intros k v. unfold empty_notes. cbn [lookup].
  repeat (destruct (str_eqb _ k);
          [intros [= <-]; exists []; split; [reflexivity|simpl; lia]|]).
  intros [=].
Qed.

Lemma compact_notes_lookup (repr : json -> str) (notes : dict) (n : Z)
  (k : str) (v : json) :
  0 <= n ->
  lookup (compact_notes repr notes n) k = Some v ->
  exists items, v = JList items /\ (length items <= Z.to_nat n)%nat.
Proof.
  intros Hn. rewrite compact_notes_eq by assumption.
  unfold NOTE_KEYS. cbn [map lookup].
  repeat (destruct (str_eqb _ k);
          [intros [= <-]; eexists; split; [reflexivity|apply firstn_le_length]
          |]).
  discriminate.
Qed.

Lemma well_formed_compact (repr : json -> str) (notes : dict) :
  well_formed_notes (compact_notes repr notes 3).
Proof.
  split; [reflexivity|]. intros k v H.
  apply compact_notes_lookup in H; [exact H|lia].
Qed.

Lemma well_formed_loop_notes (P : platform) (parsed : json) (prior : dict) :
  well_formed_notes prior -> well_formed_notes (loop_notes P parsed prior).
Proof.
  intros H. unfold loop_notes.
  destruct parsed; try apply well_formed_compact.
  destruct (get d (py "notes") (JDict [])); try assumption.
  apply well_formed_compact.
Qed.

Lemma well_formed_thoughts_notes (P : platform) (parsed : json)
  (prior : dict) :
  well_formed_notes prior -> well_formed_notes (thoughts_notes P parsed prior).
Proof.
  intros H. unfold thoughts_notes. destruct parsed; try assumption.
  destruct (get d (py "notes") (JDict [])); try assumption.
  apply well_formed_compact.
Qed.

(** The Notes a refinement or a stepwise run carries are well formed at
    every point: every record of the run holds, as [prior_notes], the four
    categories in their order, each a list of at most three items,
    whatever the replies were and however the run ends. *)
Theorem carried_notes_stay_well_formed (P : platform) (a : arguments)
  (w0 : world) (perturb_at : option Z) (perturb_text : str) :
  (forall iterations,
     replayed (fun _ _ _ => True)
       (fun _ _ r =>
          exists d,
            field r (py "prior_notes") = Some (JDict d)
            /\ well_formed_notes d)
       w0 (snd (loop_run P a iterations perturb_at perturb_text w0)))
  /\ (forall total_thoughts history_window,
        replayed (fun _ _ _ => True)
          (fun _ _ r =>
             exists d,
               field r (py "prior_notes") = Some (JDict d)
               /\ well_formed_notes d)
          w0 (snd (thoughts_run P a total_thoughts history_window perturb_at
                     perturb_text w0))).
Proof.
  split.
  - intros iterations.
    destruct (loop_run_ends P a iterations perturb_at perturb_text w0)
      as (o & E & _).
    apply (replay_inv (loop_body P a perturb_at perturb_text) w0
             (fun _ _ st => well_formed_notes (l_notes st)))
      with (n := Z.to_nat iterations) (st := loop_init a) (o := o);
      [|apply well_formed_empty|exact E].
    intros k recs st w o1 w1 Hwf _ _. rewrite loop_body_run. cbn zeta.
    destruct (loop_messages P st _) as [m|e]; [|intros [= <- <-]; now left].
    destruct (endpoint P _ _) as [content|].
    + pose proof (well_formed_loop_notes P
                    (payload (json_loads P) (strip content)) _ Hwf) as Hn.
      destruct (answer_summary _); intros [= <- <-].
      * do 2 eexists. split; [reflexivity|]. split; [exact I|].
        split; [|exact Hn]. eexists. split; [reflexivity|exact Hn].
      * right. right. do 2 eexists. split; [reflexivity|].
        split; [exact I|]. eexists. split; [reflexivity|exact Hn].
    + intros [= <- <-]. right. left. eauto.
  - intros total_thoughts history_window.
    destruct (thoughts_run_ends P a total_thoughts history_window perturb_at
                perturb_text w0) as (o & E & _).
    apply (replay_inv
             (thoughts_body P a history_window perturb_at perturb_text) w0
             (fun _ _ st => well_formed_notes (t_notes st)))
      with (n := Z.to_nat total_thoughts) (st := thoughts_init a) (o := o);
      [|apply well_formed_empty|exact E].
    intros k recs st w o1 w1 Hwf _ _. rewrite thoughts_body_run. cbn zeta.
    destruct (endpoint P _ _) as [content|]; intros [= <- <-].
    + pose proof (well_formed_thoughts_notes P
                    (payload (json_loads P) (strip content)) _ Hwf) as Hn.
      do 2 eexists. split; [reflexivity|]. split; [exact I|].
      split; [|exact Hn]. eexists. split; [reflexivity|exact Hn].
    + right. left. eauto.
Qed.

(* ================================================================== *)
(** * The tags of the records *)

Section Tags.

Variable P : platform.
Variable a : arguments.
Variable w0 : world.

Lemma baseline_tagged (samples : Z) :
  replayed (fun _ _ _ => True) (fun _ _ r => tagged a (py "baseline") r)
    w0 (snd (baseline_run P a samples w0)).
Proof.
  unfold baseline_run.
  destruct (for_range _ _ _ _ _) as [o w'] eqn:E. simpl.
  apply (replay_inv (baseline_body P a) w0 (fun _ _ _ => True))
    with (n := Z.to_nat samples) (st := tt) (o := o); [|exact I|exact E].
  assert (Ht : forall i parsed,
             tagged a (py "baseline") (baseline_record P a i parsed)).
  { intros i parsed. repeat split. exists []. now rewrite app_nil_r. }
  intros k recs [] w o1 w1 _ _ _. rewrite baseline_body_run.
  destruct (endpoint P _ _) as [content|]; cbn zeta.
  - destruct (answer_summary _); intros [= <- <-].
    + do 2 eexists. repeat split; apply Ht.
    + right. right. do 2 eexists. repeat split; apply Ht.
  - intros [= <- <-]. right. left. eauto.
Qed.

Lemma loop_tagged (iterations : Z) (perturb_at : option Z)
  (perturb_text : str) :
  replayed (fun _ _ _ => True) (fun _ _ r => tagged a (py "loop") r)
    w0 (snd (loop_run P a iterations perturb_at perturb_text w0)).
Proof.
  destruct (loop_run_ends P a iterations perturb_at perturb_text w0)
    as (o & E & _).
  apply (replay_inv (loop_body P a perturb_at perturb_text) w0
           (fun _ _ st => exists rest, l_scenario st = scenario a ++ rest))
    with (n := Z.to_nat iterations) (st := loop_init a) (o := o);
    [| exists []; simpl; now rewrite app_nil_r |exact E].
  intros k recs st w o1 w1 (rest & Hst) _ _.
  assert (Hsc : exists rest',
             loop_scenario a perturb_at perturb_text k st
             = scenario a ++ rest').
  { unfold loop_scenario. destruct (fires perturb_at k); eauto. }
  destruct Hsc as (rest' & Hsc).
  assert (Ht : forall c notes parsed,
             tagged a (py "loop")
               (loop_record P a k (scenario a ++ rest') c notes parsed)).
  { intros c notes parsed. repeat split. now exists rest'. }
  rewrite loop_body_run. cbn zeta. rewrite Hsc.
  destruct (loop_messages P st _) as [m|e]; [|intros [= <- <-]; now left].
  destruct (endpoint P _ _) as [content|].
  - destruct (answer_summary _); intros [= <- <-].
    + do 2 eexists. split; [reflexivity|]. split; [exact I|].
      split; [apply Ht|]. now exists rest'.
    + right. right. do 2 eexists. split; [reflexivity|].
      split; [exact I|apply Ht].
  - intros [= <- <-]. right. left. eauto.
Qed.

Lemma thoughts_tagged (total_thoughts history_window : Z)
  (perturb_at : option Z) (perturb_text : str) :
  replayed (fun _ _ _ => True) (fun _ _ r => tagged a (py "thoughts") r)
    w0 (snd (thoughts_run P a total_thoughts history_window perturb_at
               perturb_text w0)).
Proof.
  destruct (thoughts_run_ends P a total_thoughts history_window perturb_at
              perturb_text w0) as (o & E & _).
  apply (replay_inv
           (thoughts_body P a history_window perturb_at perturb_text) w0
           (fun _ _ st => exists rest, t_scenario st = scenario a ++ rest))
    with (n := Z.to_nat total_thoughts) (st := thoughts_init a) (o := o);
    [| exists []; simpl; now rewrite app_nil_r |exact E].
  intros k recs st w o1 w1 (rest & Hst) _ _.
  assert (Hsc : exists rest',
             thoughts_scenario a perturb_at perturb_text k st
             = scenario a ++ rest').
  { unfold thoughts_scenario. destruct (fires perturb_at k); eauto. }
  destruct Hsc as (rest' & Hsc).
  assert (Ht : forall c notes t ts hw,
             tagged a (py "thoughts")
               (thoughts_record P a k (scenario a ++ rest') c notes t ts hw)).
  { intros c notes t ts hw. repeat split. now exists rest'. }
  rewrite thoughts_body_run. cbn zeta. rewrite Hsc.
  destruct (endpoint P _ _) as [content|]; intros [= <- <-].
  - do 2 eexists. split; [reflexivity|]. split; [exact I|].
    split; [apply Ht|]. now exists rest'.
  - right. left. eauto.
Qed.

End Tags.

(* ================================================================== *)
(** * The command line *)

Section Main.

Variable h : host.
Variable P : platform.
Variable w : world.

Lemma accounted_status {A} (n : nat) (w0 : world) (o : outcome A)
  (w' : world) :
  accounted n w0 o w' -> exit_status o = 0 \/ exit_status o = 1.
Proof. destruct o; simpl; [auto|intros (-> & _); auto|auto]. Qed.

Lemma accounted_grown {A} (n : nat) (w0 : world) (o : outcome A)
  (w' : world) :
  accounted n w0 o w' ->
  exists i j, (i <= j)%nat /\ (j <= n)%nat /\ grown w0 w' i j.
Proof.
  destruct o; simpl.
  - intros H. exists n, n. now repeat split.
  - intros (_ & k & Hk & H). exists k, (S k). repeat split; try lia.
    assumption.
  - intros (k & j & Hkj & Hj & H). exists k, j. repeat split; try lia.
    assumption.
Qed.

(** The run [main] starts once the scenario is settled and the endpoint
    reached. *)
Let run (args : Args.t) (text : str) : outcome unit * world :=
  let a := run_arguments args text in
  match Args.mode args with
  | Args.Baseline => baseline_run P a (Args.samples args) w
  | Args.Loop =>
      loop_run P a (Args.iterations args) (Args.perturb_at args)
        (Args.perturb_text args) w
  | Args.Thoughts =>
      thoughts_run P a (Args.thoughts args) (Args.history_window args)
        (Args.perturb_at args) (Args.perturb_text args) w
  end.

Lemma run_accounted (args : Args.t) (text : str) :
  accounted (mode_count args) w (fst (run args text)) (snd (run args text)).
Proof.
  unfold run, mode_count. destruct (Args.mode args).
  - apply baseline_accounted.
  - apply loop_accounted.
  - apply thoughts_accounted.
Qed.

Lemma main_cases (args : Args.t) :
  (given (Args.scenario args) = false
   /\ given (Args.scenario_file args) = false
   /\ main h P (Args.Namespace args) w = (Ran (Exit 2), w))
  \/ ((given (Args.scenario args) = true
       \/ given (Args.scenario_file args) = true)
      /\ ((chosen_scenario h args = None
           /\ main h P (Args.Namespace args) w = (Unreadable, w))
          \/ (exists text,
                chosen_scenario h args = Some text
                /\ ((tags_reachable h = false
                     /\ main h P (Args.Namespace args) w
                        = (Ran (Exit 1), w))
                    \/ (tags_reachable h = true
                        /\ main h P (Args.Namespace args) w
                           = (Ran (fst (run args text)),
                              snd (run args text))))))).
Proof.
  unfold main.
  destruct (given (Args.scenario args)) eqn:G1;
    destruct (given (Args.scenario_file args)) eqn:G2; cbn [negb andb];
    try (left; now repeat split);
    right; (split; [auto|]);
    (destruct (chosen_scenario h args) as [text|]; [right|left; now split]);
    exists text; (split; [reflexivity|]);
    (destruct (tags_reachable h); [right|left; now split]);
    (split; [reflexivity|]); cbv zeta; fold (run args text);
    now destruct (run args text).
Qed.

(** The process status of [main] is 0, 1 or 2.  It is 2 exactly when
    [parse_args] refuses the command line, or returns a namespace with
    neither a scenario text nor a scenario file.  It is 0 exactly when
    [parse_args] was asked for the help, or the chosen run completed.
    Unless [parse_args] returns, the scenario is settled and the endpoint
    is reached, nothing is sent and nothing is logged, and the status is
    not 0 but for the help. *)
Theorem main_exit_status (cmd : Args.parsed) :
  let final := main h P cmd w in
  (status (fst final) = 0 \/ status (fst final) = 1 \/ status (fst final) = 2)
  /\ (status (fst final) = 2
      <-> cmd = Args.Refused
          \/ exists args,
               cmd = Args.Namespace args
               /\ given (Args.scenario args) = false
               /\ given (Args.scenario_file args) = false)
  /\ (status (fst final) = 0
      <-> cmd = Args.Help \/ fst final = Ran (Done tt))
  /\ (snd final = w /\ status (fst final) <> 0
      \/ snd final = w /\ cmd = Args.Help
      \/ exists args text,
           cmd = Args.Namespace args
           /\ chosen_scenario h args = Some text
           /\ tags_reachable h = true).
Proof.
  cbv zeta. destruct cmd as [args| |].
  - assert (Hno : given (Args.scenario args) = true
                  \/ given (Args.scenario_file args) = true ->
                  ~ (Args.Namespace args = Args.Refused
                     \/ exists args',
                          Args.Namespace args = Args.Namespace args'
                          /\ given (Args.scenario args') = false
                          /\ given (Args.scenario_file args') = false)).
    { intros G [H|(args' & [= <-] & G1 & G2)]; [discriminate|].
      destruct G; congruence. }
    assert (Hhelp : forall X : Prop,
               Args.Namespace args = Args.Help \/ X <-> X).
    { intros X. split; [intros [H|H]; [discriminate|exact H]|auto]. }
    rewrite Hhelp.
    destruct (main_cases args)
      as [(G1 & G2 & ->)
         |(G & [(Hc & ->)|(text & Hc & [(Hr & ->)|(Hr & ->)])])]; simpl;
      (split; [|split; [|split]]).
    + auto.
    + split; [|reflexivity]. intros _. right. now exists args.
    + split; discriminate.
    + left. now split.
    + auto.
    + split; [discriminate|]. intros H. now apply Hno in H.
    + split; discriminate.
    + left. now split.
    + auto.
    + split; [discriminate|]. intros H. now apply Hno in H.
    + split; discriminate.
    + left. now split.
    + destruct (accounted_status _ _ _ _ (run_accounted args text))
        as [->| ->]; auto.
    + split; [|intros H; now apply Hno in H].
      destruct (accounted_status _ _ _ _ (run_accounted args text))
        as [->| ->]; discriminate.
    + pose proof (run_accounted args text) as Ha.
      destruct (fst (run args text)) as [[]|code|e]; simpl in *.
      * now split.
      * destruct Ha as (-> & _). split; discriminate.
      * split; discriminate.
    + right. right. now exists args, text.
  - simpl. split; [auto|]. split; [|split; [|right; left; now split]].
    + split; [discriminate|].
      intros [H|(args & H & _)]; discriminate.
    + split; auto.
  - simpl. split; [auto|]. split; [|split; [|left; now split]].
    + split; auto.
    + split; [discriminate|]. intros [H|H]; discriminate.
Qed.

Lemma run_tagged (args : Args.t) (text : str) :
  replayed (fun _ _ _ => True)
    (fun _ _ r => tagged (run_arguments args text) (mode_tag args) r)
    w (snd (run args text)).
Proof.
  unfold run, mode_tag. destruct (Args.mode args).
  - apply baseline_tagged.
  - apply loop_tagged.
  - apply thoughts_tagged.
Qed.

(** What [main] adds to the log comes from the controller of the chosen
    mode, run with the arguments of the command line: at most as many
    requests as that mode's count, at most a record for each, and every
    record tagged with the mode, the model, the sampling parameters and a
    scenario that opens with the scenario text given, or else with the
    stripped content of the scenario file.  When [parse_args] does not
    return, nothing is added at all. *)
Theorem main_runs_the_chosen_mode (cmd : Args.parsed) :
  exists recs reqs,
    log (snd (main h P cmd w)) = log w ++ recs
    /\ requests (snd (main h P cmd w)) = requests w ++ reqs
    /\ (length recs <= length reqs)%nat
    /\ match cmd with
       | Args.Namespace args =>
           (length reqs <= mode_count args)%nat
           /\ forall r,
                In r recs ->
                exists text,
                  chosen_scenario h args = Some text
                  /\ (given (Args.scenario args) = true ->
                      Args.scenario args = Some text)
                  /\ (given (Args.scenario args) = false ->
                      exists path content,
                        Args.scenario_file args = Some path
                        /\ read_file h path = Some content
                        /\ text = strip content)
                  /\ tagged (run_arguments args text) (mode_tag args) r
       | _ => recs = [] /\ reqs = []
       end.
Proof.
  destruct cmd as [args| |];
    [|exists [], []; simpl; rewrite !app_nil_r; now repeat split ..].
  assert (Hidle : snd (main h P (Args.Namespace args) w) = w ->
            exists recs reqs,
              log (snd (main h P (Args.Namespace args) w)) = log w ++ recs
              /\ requests (snd (main h P (Args.Namespace args) w))
                 = requests w ++ reqs
              /\ (length recs <= length reqs)%nat
              /\ (length reqs <= mode_count args)%nat
              /\ forall r,
                   In r recs ->
                   exists text,
                     chosen_scenario h args = Some text
                     /\ (given (Args.scenario args) = true ->
                         Args.scenario args = Some text)
                     /\ (given (Args.scenario args) = false ->
                         exists path content,
                           Args.scenario_file args = Some path
                           /\ read_file h path = Some content
                           /\ text = strip content)
                     /\ tagged (run_arguments args text) (mode_tag args) r).
  { intros ->. exists [], []. rewrite !app_nil_r. simpl.
    split; [reflexivity|]. split; [reflexivity|]. split; [lia|].
    split; [lia|]. intros r []. }
  destruct (main_cases args)
    as [(G1 & G2 & E)
       |(G & [(Hc & E)|(text & Hc & [(Hr & E)|(Hr & E)])])];
    try (apply Hidle; now rewrite E).
  rewrite E. cbn [snd]. clear Hidle E.
  destruct (accounted_grown _ _ _ _ (run_accounted args text))
    as (i & j & Hij & Hj & recs & reqs & H1 & H2 & L1 & L2).
  destruct (run_tagged args text) as (recs' & reqs' & H1' & _ & _ & Ht).
  assert (recs' = recs) as ->
    by (rewrite H1 in H1'; now apply app_inv_head in H1').
  exists recs, reqs. repeat split; try assumption; try lia.
  intros r Hin. exists text. split; [assumption|].
  split; [|split].
  - intros Hg. unfold chosen_scenario in Hc. now rewrite Hg in Hc.
  - intros Hg. unfold chosen_scenario, read_text_file in Hc.
    rewrite Hg in Hc.
    destruct (Args.scenario_file args) as [path|]; [|discriminate].
    destruct (read_file h path) as [content|] eqn:Er; [|discriminate].
    injection Hc as <-. now exists path, content.
  - apply In_nth_error in Hin. destruct Hin as (n & Hn).
    now apply (Ht n r).
Qed.

End Main.

(* ================================================================== *)
(** * Notes that cannot be rendered *)

(** A loop that reached iteration [k] of [n] and raises there has
    raised. *)
Lemma for_range_raises {St} (body : nat -> St -> io St) (n k : nat)
  (init st : St) (w0 w w' : world) (e : exc) :
  (k < n)%nat ->
  for_range body 0 k init w0 = (Done st, w) ->
  body k st w = (Uncaught e, w') ->
  for_range body 0 n init w0 = (Uncaught e, w').
Proof.
  intros Hk Hreach Hraise.
  replace n with (k + S (n - S k))%nat by lia.
  rewrite for_range_split, Hreach. simpl. unfold bind. now rewrite Hraise.
Qed.

Lemma for_range_next {St} (body : nat -> St -> io St) (k : nat)
  (init st st' : St) (w0 w w' : world) :
  for_range body 0 k init w0 = (Done st, w) ->
  body k st w = (Done st', w') ->
  for_range body 0 (S k) init w0 = (Done st', w').
Proof.
  intros Hreach Hstep. replace (S k) with (k + 1)%nat by lia.
  rewrite for_range_split, Hreach. simpl. unfold bind. now rewrite Hstep.
Qed.

(** What a refinement run carries after [n] completed iterations is what
    its last record holds. *)
Lemma loop_notes_follow_log (P : platform) (a : arguments)
  (perturb_at : option Z) (perturb_text : str) (n : nat) (st : loop_state)
  (w0 w : world) :
  for_range (loop_body P a perturb_at perturb_text) 0 n (loop_init a) w0
  = (Done st, w) ->
  exists recs,
    log w = log w0 ++ recs /\ length recs = n
    /\ l_notes st = notes_after recs.
Proof.
  intros Hrun.
  apply (for_range_inv (loop_body P a perturb_at perturb_text)
           (fun k s w1 =>
              exists recs,
                log w1 = log w0 ++ recs /\ length recs = k
                /\ l_notes s = notes_after recs)
           (fun _ => True)) in Hrun.
  - exact Hrun.
  - intros k s w1 o w2 (recs & H1 & L1 & Hn). rewrite loop_body_run.
    cbn zeta.
    destruct (loop_messages P s _) as [m|e]; [|now intros [= <- <-]].
    destruct (endpoint P _ _) as [content|]; [|now intros [= <- <-]].
    destruct (answer_summary _); intros [= <- <-]; [|exact I].
    eexists (recs ++ [_]). simpl. rewrite H1, app_assoc, length_app. simpl.
    repeat split; try lia. symmetry. now apply notes_after_snoc.
  - exists []. rewrite app_nil_r. now repeat split.
Qed.

(** Notes that render hold only strings in their lists. *)
Lemma rendered_notes_hold_strings (notes : dict) (text : str) (key : str)
  (items : list json) :
  render_prior notes = Ok text -> In key NOTE_KEYS ->
  lookup notes key = Some (JList items) -> forallb is_str items = true.
Proof.
  unfold render_prior. intros Hr Hkey Hl.
  assert (Hj : forall b, join_items (get notes key (JList [])) = Ok b ->
                         forallb is_str items = true).
  { intros b. unfold get. rewrite Hl, join_items_list, strings_of_eq.
    now destruct (forallb is_str items). }
  unfold NOTE_KEYS in Hkey. cbn [In] in Hkey.
  destruct (join_items (get notes (py "premises") (JList []))) eqn:E1;
    [|discriminate].
  destruct (join_items (get notes (py "hypotheses") (JList []))) eqn:E2;
    [|discriminate].
  destruct (join_items (get notes (py "uncertainties") (JList []))) eqn:E3;
    [|discriminate].
  destruct (join_items (get notes (py "plan_next") (JList []))) eqn:E4;
    [|discriminate].
  destruct Hkey as [<- | [<- | [<- | [<- | []]]]]; eapply Hj; eassumption.
Qed.

(** Once a refinement run has completed an iteration whose record holds,
    in a category of its [prior_notes], a list with an item that is not a
    string, the next iteration raises a [TypeError] while rendering those
    Notes, before it sends anything: the run ends there, with nothing
    sent or logged after that record. *)
Theorem bad_note_item_ends_the_run (P : platform) (a : arguments)
  (iterations : Z) (perturb_at : option Z) (perturb_text : str) (k : nat)
  (st : loop_state) (w0 w : world) (recs : list json) (r : json)
  (d : dict) (key : str) (items : list json) :
  (S k < Z.to_nat iterations)%nat ->
  for_range (loop_body P a perturb_at perturb_text) 0 (S k) (loop_init a) w0
  = (Done st, w) ->
  log w = log w0 ++ recs ++ [r] ->
  field r (py "prior_notes") = Some (JDict d) ->
  In key NOTE_KEYS ->
  lookup d key = Some (JList items) ->
  forallb is_str items = false ->
  loop_run P a iterations perturb_at perturb_text w0
  = (Uncaught TypeError, w).
Proof.
  intros Hk Hreach Hlog Hr Hkey Hl Hbad.
  destruct (loop_notes_follow_log _ _ _ _ _ _ _ _ Hreach)
    as (recs' & H1 & _ & Hn).
  rewrite Hlog in H1. apply app_inv_head in H1. subst recs'.
  rewrite (notes_after_snoc recs r d Hr) in Hn.
  assert (Hraise : render_prior (l_notes st) = Raise TypeError).
  { rewrite Hn. destruct (render_prior d) as [text|e] eqn:E.
    - rewrite (rendered_notes_hold_strings d text key items E Hkey Hl)
        in Hbad.
      discriminate.
    - now rewrite (render_prior_raises d e E). }
  assert (Hnext : loop_body P a perturb_at perturb_text (S k) st w
                  = (Uncaught TypeError, w)).
  { rewrite loop_body_run. cbn zeta. unfold loop_messages.
    now rewrite Hraise. }
  unfold loop_run, bind.
  now rewrite (for_range_raises _ _ _ _ _ _ _ _ _ Hk Hreach Hnext).
Qed.

(* ================================================================== *)
(** * The theorems at work *)

Lemma compact_notes_twice_witness :
  compact_notes Repr.repr (compact_notes Repr.repr raw_notes 3) 2
  = compact_notes Repr.repr raw_notes (Z.min 3 2)
  /\ compact_notes Repr.repr (compact_notes Repr.repr raw_notes 3) 3
     = compact_notes Repr.repr raw_notes 3.
Proof. apply (compact_notes_twice Repr.repr raw_notes 3 2); lia. Defined.

Lemma render_prior_of_compacted_witness :
  render_prior (compact_notes Repr.repr raw_notes 3)
  = Ok (prior_block [py "a"; py "b"; py "c"] [] [] [py "7"]).
Proof.
  destruct (render_prior_of_compacted Repr.repr raw_notes 3) as [H _];
    [lia|].
  apply H. exists [py "a"; py "b"; py "c"], [], [], [py "7"].
  repeat split; reflexivity.
Defined.

(** A stepwise run of two steps from a scenario file: two requests, two
    records, status 0, and the scenario is the stripped content of the
    file. *)
Example main_reads_the_file :
  exists r1 r2 m1 m2,
    main one_file steady_machine (Args.Namespace from_file) Example.start
    = (Ran (Done tt), {| log := [r1; r2]; requests := [m1; m2] |})
    /\ field r1 (py "scenario") = Some (JStr (py "A Mars habitat."))
    /\ field r2 (py "thoughts_so_far") = Some (JInt 0).
Proof. do 4 eexists. vm_compute. repeat split; reflexivity. Qed.

(** With no scenario at all, status 2 and nothing done. *)
Example main_needs_a_scenario :
  main one_file steady_machine
    (Args.Namespace
       {| Args.mode := Args.Loop; Args.scenario := Some [];
          Args.scenario_file := None; Args.samples := 10;
          Args.iterations := 15; Args.perturb_at := None;
          Args.perturb_text := []; Args.thoughts := 20;
          Args.history_window := 5; Args.temperature := FDec 2 (-1);
          Args.seed := 42; Args.model := py "llama3.2:3b" |})
    Example.start
  = (Ran (Exit 2), Example.start).
Proof. reflexivity. Qed.

Lemma bad_note_item_ends_the_run_witness :
  let P := Example.machine
             [Some (qq "{'notes': {'premises': [1]}}");
              Some (qq "{'answer': 'ok'}"); Some (qq "{'answer': 'ok'}")] in
  exists w,
    loop_run P (Example.args (py "S")) 3 None [] Example.start
    = (Uncaught TypeError, w)
    /\ length (log w) = 1%nat /\ length (requests w) = 1%nat.
Proof.
  intros P.
  destruct (for_range (loop_body P (Example.args (py "S")) None []) 0 1
              (loop_init (Example.args (py "S"))) Example.start)
    as [o w] eqn:Hreach.
  assert (Hw : exists st r,
             o = Done st /\ log w = log Example.start ++ [] ++ [r]
             /\ length (requests w) = 1%nat
             /\ field r (py "prior_notes")
                = Some (JDict [(py "premises", JList [JInt 1]);
                               (py "hypotheses", JList []);
                               (py "uncertainties", JList []);
                               (py "plan_next", JList [])])).
  { vm_compute in Hreach. injection Hreach as <- <-.
    do 2 eexists. repeat split; reflexivity. }
  destruct Hw as (st & r & -> & Hlog & Hreq & Hr).
  exists w. split; [|split; [now rewrite Hlog|exact Hreq]].
  apply (bad_note_item_ends_the_run P (Example.args (py "S")) 3 None [] 0
           st Example.start w [] r
           [(py "premises", JList [JInt 1]); (py "hypotheses", JList []);
            (py "uncertainties", JList []); (py "plan_next", JList [])]
           (py "premises") [JInt 1]);
    first [exact Hreach | exact Hlog | exact Hr | reflexivity
          | (simpl; lia) | (simpl; tauto)].
Defined.
